(** * The request-handling gateway of [functions/api.ts]

    A shallow embedding of the serverless gateway: the in-memory result
    cache ([setCache], [getCache]), the retry executor ([withRetry]), the
    four operation handlers and the dispatch entry point, followed by the
    properties of the gateway that the specification states.

    Conventions of the embedding.
    - JavaScript values are the inductive [JValue]; numbers are binary64
      floats, as in the language.
    - Strings are sequences of 8-bit characters, read as the code units
      below 256 (Latin-1); [toLowerCase] and [trim] are the language's
      functions on such strings.
    - Asynchronous code is run to completion, one request at a time: an
      [async] function is a state transformer over [World] that either
      returns a value or throws.  [Date.now()] reads the clock of the
      world; awaiting the provider or a timer advances it.
    - What the gateway does not define itself (the provider behind
      [ai.models.generateContent], [JSON.parse], the printing of numbers,
      the time a timer takes) is a member of the class [Env], over which
      everything is generic. *)

From Stdlib Require Import ZArith String Ascii List Bool Floats Lia.
From stdpp Require Import base option strings gmap.
From Equations Require Import Equations.

#[local] Set Warnings "-register-all".
#[local] Open Scope string_scope.
#[local] Open Scope Z_scope.

(** ** JavaScript values *)

Inductive JValue : Type :=
| JUndefined
| JNull
| JBool (b : bool)
| JNum (x : float)
| JStr (s : string)
| JArr (items : list JValue)
| JObj (fields : list (string * JValue)).

(** ToBoolean. *)
Definition truthy (v : JValue) : bool :=
  match v with
  | JUndefined | JNull => false
  | JBool b => b
  | JNum x => negb (PrimFloat.is_zero x || PrimFloat.is_nan x)
  | JStr s => negb (String.eqb s "")
  | JArr _ | JObj _ => true
  end.

(** [a || b] on values. *)
Definition js_or (a b : JValue) : JValue := if truthy a then a else b.

(** Own property of an object, the first binding of the name (a parsed
    object binds a name once). *)
Fixpoint assoc (name : string) (fields : list (string * JValue)) : option JValue :=
  match fields with
  | [] => None
  | (k, v) :: rest => if String.eqb k name then Some v else assoc name rest
  end.

(** ** Strings *)

(** The letters with a lower-case counterpart: A-Z, and in the upper half
    of Latin-1 the letters from 192 to 222 (215 is the multiplication
    sign). *)
Definition is_upper (c : ascii) : bool :=
  let n := nat_of_ascii c in
  (Nat.leb 65 n && Nat.leb n 90)
  || (Nat.leb 192 n && Nat.leb n 222 && negb (Nat.eqb n 215)).

Definition toLowerCase_char (c : ascii) : ascii :=
  if is_upper c then ascii_of_nat (nat_of_ascii c + 32) else c.

(** [String.prototype.toLowerCase]. *)
Fixpoint toLowerCase (s : string) : string :=
  match s with
  | EmptyString => EmptyString
  | String c rest => String (toLowerCase_char c) (toLowerCase rest)
  end.

(** [String.prototype.includes]: [needle] occurs somewhere in [hay]. *)
Fixpoint includes (hay needle : string) : bool :=
  String.prefix needle hay ||
  match hay with
  | EmptyString => false
  | String _ rest => includes rest needle
  end.

(** White space and line terminators: tab to carriage return, space and
    the no-break space. *)
Definition is_space (c : ascii) : bool :=
  let n := nat_of_ascii c in
  (Nat.leb 9 n && Nat.leb n 13) || Nat.eqb n 32 || Nat.eqb n 160.

Fixpoint trimStart (s : string) : string :=
  match s with
  | String c rest => if is_space c then trimStart rest else s
  | EmptyString => EmptyString
  end.

(** Drops the white space at the end: a character is kept when it is not a
    space or when something is kept after it. *)
Fixpoint trimEnd (s : string) : string :=
  match s with
  | EmptyString => EmptyString
  | String c rest =>
      match trimEnd rest with
      | EmptyString => if is_space c then EmptyString else String c EmptyString
      | kept => String c kept
      end
  end.

(** [String.prototype.trim]. *)
Definition trim (s : string) : string := trimEnd (trimStart s).

(** ** Failures *)

(** A thrown error object: the two properties the gateway reads. *)
Record JsError : Type := mkError {
  message : option string;
  status : option Z
}.

(** [new Error(msg)]. *)
Definition Error (msg : string) : JsError :=
  {| message := Some msg; status := None |}.

(** The runtime's own failure when a property or a method is used on a
    value that has none. *)
Definition TypeError (msg : string) : JsError :=
  {| message := Some msg; status := None |}.

(** ** The provider's interface *)

Inductive Schema : Type :=
| TypeSTRING
| TypeINTEGER
| TypeARRAY (item : Schema)
| TypeOBJECT (properties : list (string * Schema)) (required : list string).

Inductive Part : Type :=
| TextPart (text : string)
| InlineDataPart (data mimeType : JValue).

Record GenerateContentConfig : Type := {
  responseMimeType : option string;
  responseSchema : option Schema;
  responseModalities : list string;
  voiceName : option string
}.

Record GenerateContentParameters : Type := {
  model : string;
  contents : list Part;
  config : GenerateContentConfig
}.

Record Blob : Type := { blob_data : option string }.
Record ResponsePart : Type := { inlineData : option Blob }.
Record Content : Type := { parts : option (list ResponsePart) }.
Record Candidate : Type := { content : option Content }.

Record GenerateContentResponse : Type := {
  text : option string;
  candidates : option (list Candidate)
}.

(** What one call of the provider does: how long it takes and whether it
    resolves or rejects. *)
Record Reply : Type := {
  elapsed : Z;
  settled : JsError + GenerateContentResponse
}.

(** The environment of the gateway. *)
Class Env : Type := {
  (** the provider: its n-th call, on a given request *)
  provider : nat -> GenerateContentParameters -> Reply;
  (** [JSON.parse] *)
  JSON_parse : string -> JsError + JValue;
  (** Number::toString *)
  Number_toString : float -> string;
  (** the time after which a timer set to a given delay fires *)
  timer : Z -> Z
}.

(** ** The state of the process *)

Record CacheEntry : Type := { timestamp : Z; data : JValue }.

Inductive ConsoleEntry : Type :=
| warn_retrying (attempt maxRetries delay : Z)
| error_exhausted (maxRetries : Z) (error : JsError)
| error_api (error : JsError).

Record World : Type := mkWorld {
  cache : gmap string CacheEntry;
  clock : Z;
  console : list ConsoleEntry;
  ai_calls : nat
}.

Definition set_cache (c : gmap string CacheEntry) (w : World) : World :=
  {| cache := c; clock := clock w; console := console w; ai_calls := ai_calls w |}.

Definition set_clock (t : Z) (w : World) : World :=
  {| cache := cache w; clock := t; console := console w; ai_calls := ai_calls w |}.

Definition log (e : ConsoleEntry) (w : World) : World :=
  {| cache := cache w; clock := clock w; console := console w ++ [e];
     ai_calls := ai_calls w |}.

Definition count_call (w : World) : World :=
  {| cache := cache w; clock := clock w; console := console w;
     ai_calls := S (ai_calls w) |}.

(** ** Asynchronous computations *)

Inductive Outcome (A : Type) : Type :=
| Returned (a : A)
| Thrown (e : JsError).
Arguments Returned {A} a.
Arguments Thrown {A} e.

Definition M (A : Type) : Type := World -> Outcome A * World.

Definition ret {A} (a : A) : M A := fun w => (Returned a, w).
Definition throw {A} (e : JsError) : M A := fun w => (Thrown e, w).

Definition bind {A B} (m : M A) (k : A -> M B) : M B :=
  fun w =>
    match m w with
    | (Returned a, w') => k a w'
    | (Thrown e, w') => (Thrown e, w')
    end.

(** [try { body } catch (error) { handler }]. *)
Definition try_catch {A} (body : M A) (handler : JsError -> M A) : M A :=
  fun w =>
    match body w with
    | (Returned a, w') => (Returned a, w')
    | (Thrown e, w') => handler e w'
    end.

Notation "'let*' x ':=' m 'in' k" := (bind m (fun x => k))
  (at level 10, x pattern, m at level 100, k at level 200).
Notation "m ';;' k" := (bind m (fun _ => k))
  (at level 100, k at level 200, right associativity).

Definition Date_now : M Z := fun w => (Returned (clock w), w).
Definition console_log (e : ConsoleEntry) : M unit := fun w => (Returned tt, log e w).

(** [await sleep(ms)]: the clock moves on to the moment the timer fires. *)
Definition sleep `{Env} (ms : Z) : M unit :=
  fun w => (Returned tt, set_clock (clock w + timer ms) w).

(** [await ai.models.generateContent(request)]. *)
Definition generateContent `{Env} (request : GenerateContentParameters)
  : M GenerateContentResponse :=
  fun w =>
    let reply := provider (ai_calls w) request in
    let w' := set_clock (clock w + elapsed reply) (count_call w) in
    match settled reply with
    | inl e => (Thrown e, w')
    | inr response => (Returned response, w')
    end.

(** ** Caching implementation *)

Definition CACHE_TTL_MS : Z := 60 * 60 * 1000.

Definition setCache (key : string) (data : JValue) : M unit :=
  fun w =>
    (Returned tt,
     set_cache (<[key := {| timestamp := clock w; data := data |}]> (cache w)) w).

(** Returns the stored value, or [null] after dropping the key. *)
Definition getCache (key : string) : M JValue :=
  fun w =>
    match cache w !! key with
    | Some entry =>
        if clock w - timestamp entry <? CACHE_TTL_MS
        then (Returned (data entry), w)
        else (Returned JNull, set_cache (delete key (cache w)) w)
    | None => (Returned JNull, set_cache (delete key (cache w)) w)
    end.

(** ** API logic with retry *)

Definition message_includes (error : JsError) (marker : string) : bool :=
  match message error with
  | Some m => includes m marker
  | None => false
  end.

Definition status_is (error : JsError) (code : Z) : bool :=
  match status error with
  | Some s => s =? code
  | None => false
  end.

Definition isRetryable (error : JsError) : bool :=
  message_includes error "503" || message_includes error "UNAVAILABLE"
  || message_includes error "overloaded" || status_is error 503.

Definition busy_error : JsError :=
  Error "The AI service is currently busy. Please try again in a few moments.".

Definition fallthrough_error : JsError :=
  Error "API call failed after multiple retries.".

(** The [while (attempt < maxRetries)] loop of [withRetry], entered with
    the current values of [attempt] and [delay]. *)
Equations withRetry_loop `{Env} {T : Type} (apiCall : M T) (maxRetries attempt delay : Z)
  : M T by wf (Z.to_nat (maxRetries - attempt)) lt :=
withRetry_loop apiCall maxRetries attempt delay with Z_lt_dec attempt maxRetries := {
  | left _ =>
      try_catch apiCall (fun error =>
        let attempt' := attempt + 1 in
        if isRetryable error && (attempt' <? maxRetries) then
          console_log (warn_retrying attempt' maxRetries delay);;
          sleep delay;;
          withRetry_loop apiCall maxRetries attempt' (delay * 2)
        else if isRetryable error then
          console_log (error_exhausted maxRetries error);;
          throw busy_error
        else throw error)
  | right _ => throw fallthrough_error }.
Next Obligation. lia. Qed.

Definition withRetry `{Env} {T : Type} (apiCall : M T) (maxRetries initialDelay : Z) : M T :=
  withRetry_loop apiCall maxRetries 0 initialDelay.


(** ** API handlers *)

(** [v.name], for the property names the gateway reads (none of which a
    string, a number, a boolean or an array has). *)
Definition js_get (v : JValue) (name : string) : M JValue :=
  match v with
  | JUndefined =>
      throw (TypeError ("Cannot read properties of undefined (reading '" +:+ name +:+ "')"))
  | JNull =>
      throw (TypeError ("Cannot read properties of null (reading '" +:+ name +:+ "')"))
  | JObj fields => ret (default JUndefined (assoc name fields))
  | _ => ret JUndefined
  end.

(** The receiver of [expr.toLowerCase()]: the call throws unless [v] is a
    string. *)
Definition this_string (expr : string) (v : JValue) : M string :=
  match v with
  | JStr s => ret s
  | JUndefined =>
      throw (TypeError "Cannot read properties of undefined (reading 'toLowerCase')")
  | JNull =>
      throw (TypeError "Cannot read properties of null (reading 'toLowerCase')")
  | _ => throw (TypeError (expr +:+ ".toLowerCase is not a function"))
  end.

(** ToString, as a template literal applies it to a substitution; [None]
    when the conversion throws, which it does on an object with a property
    [toString] of its own: the property is not callable, and the inherited
    [valueOf] gives the object back. *)
Fixpoint js_String `{Env} (v : JValue) : option string :=
  match v with
  | JUndefined => Some "undefined"
  | JNull => Some "null"
  | JBool true => Some "true"
  | JBool false => Some "false"
  | JNum x => Some (Number_toString x)
  | JStr s => Some s
  | JArr items =>
      let fix join (items : list JValue) : option (list string) :=
        match items with
        | [] => Some []
        | item :: rest =>
            match
              match item with
              | JUndefined | JNull => Some ""
              | _ => js_String item
              end, join rest
            with
            | Some s, Some ss => Some (s :: ss)
            | _, _ => None
            end
        end in
      option_map (String.concat ",") (join items)
  | JObj fields =>
      match assoc "toString" fields with
      | Some _ => None
      | None => Some "[object Object]"
      end
  end.

(** A substitution [${v}] of a template literal. *)
Definition substitution `{Env} (v : JValue) : M string :=
  match js_String v with
  | Some s => ret s
  | None => throw (TypeError "Cannot convert object to primitive value")
  end.

(** [response.text.trim()]. *)
Definition text_trim (response : GenerateContentResponse) : M string :=
  match text response with
  | Some t => ret (trim t)
  | None => throw (TypeError "Cannot read properties of undefined (reading 'trim')")
  end.

(** [JSON.parse(s)], throwing what the parser rejects with. *)
Definition parse `{Env} (s : string) : M JValue :=
  match JSON_parse s with
  | inl e => throw e
  | inr v => ret v
  end.

(** [v.slice(0, 10)]: arrays and strings have the method. *)
Definition slice_0_10 (v : JValue) : M JValue :=
  match v with
  | JArr items => ret (JArr (firstn 10 items))
  | JStr s => ret (JStr (substring 0 10 s))
  | _ => throw (TypeError "(intermediate value).slice is not a function")
  end.

Definition Array_isArray (v : JValue) : bool :=
  match v with
  | JArr _ => true
  | _ => false
  end.

(** [v.length === 0], read after [Array.isArray(v)]. *)
Definition length_is_0 (v : JValue) : bool :=
  match v with
  | JArr [] => true
  | _ => false
  end.

Definition words_cacheKey (topic language : string) : string :=
  "words:" +:+ toLowerCase topic +:+ ":" +:+ toLowerCase language.

Definition speech_cacheKey (text voice : string) : string :=
  "speech:" +:+ toLowerCase text +:+ ":" +:+ toLowerCase voice.

Definition instructions_cacheKey (languageName : string) : string :=
  "instructions:" +:+ toLowerCase languageName.

Definition words_request (topic language : string) : GenerateContentParameters :=
  {| model := "gemini-2.5-flash";
     contents :=
       [TextPart ("Generate a list of 10 common, single words related to the topic '"
                  +:+ topic +:+ "' in " +:+ language
                  +:+ ". The words should be suitable for a language learner.")];
     config :=
       {| responseMimeType := Some "application/json";
          responseSchema := Some (TypeOBJECT [("words", TypeARRAY TypeSTRING)] ["words"]);
          responseModalities := [];
          voiceName := None |} |}.

(** The call that [handleGenerateWords] hands to [withRetry]. *)
Definition generateWords_call `{Env} (topic language : string) : M JValue :=
  let* response := generateContent (words_request topic language) in
  let* jsonText := text_trim response in
  let* parsed := parse jsonText in
  let* field := js_get parsed "words" in
  let* words := slice_0_10 (js_or field (JArr [])) in
  if negb (Array_isArray words) || length_is_0 words
  then throw (Error "Invalid response format from API.")
  else ret words.

Definition handleGenerateWords `{Env} (topic language : JValue) : M JValue :=
  let* topic := this_string "topic" topic in
  let* language := this_string "language" language in
  let cacheKey := words_cacheKey topic language in
  let* cached := getCache cacheKey in
  if truthy cached then ret cached
  else
    let* result := withRetry (generateWords_call topic language) 3 1000 in
    setCache cacheKey result;;
    ret result.

Definition speech_request (text voice : string) : GenerateContentParameters :=
  {| model := "gemini-2.5-flash-preview-tts";
     contents := [TextPart ("Pronounce the word: " +:+ text)];
     config :=
       {| responseMimeType := None;
          responseSchema := None;
          responseModalities := ["AUDIO"];
          voiceName := Some voice |} |}.

(** [response.candidates?.[0]?.content?.parts?.[0]?.inlineData?.data]. *)
Definition first_inlineData (response : GenerateContentResponse) : option string :=
  cs ← candidates response; c ← head cs; ct ← content c; ps ← parts ct;
  p ← head ps; blob ← inlineData p; blob_data blob.

Definition generateSpeech_call `{Env} (text voice : string) : M JValue :=
  let* response := generateContent (speech_request text voice) in
  let base64Audio := from_option JStr JUndefined (first_inlineData response) in
  if negb (truthy base64Audio)
  then throw (Error "No audio data received from TTS API")
  else ret base64Audio.

Definition handleGenerateSpeech `{Env} (text voice : JValue) : M JValue :=
  let* text := this_string "text" text in
  let* voice := this_string "voice" voice in
  let cacheKey := speech_cacheKey text voice in
  let* cached := getCache cacheKey in
  if truthy cached then ret cached
  else
    let* result := withRetry (generateSpeech_call text voice) 3 1000 in
    setCache cacheKey result;;
    ret result.

Definition assessment_prompt (word language : string) : string :=
  "You are a language pronunciation expert. The target word is '"
  +:+ word +:+ "' in " +:+ language
  +:+ ". A non-native speaker has pronounced it. The provided audio is their attempt. Analyze the pronunciation in the audio. Provide a score from 1 to 100 on how close it is to a native speaker's pronunciation, where 100 is perfect. Also, provide a short, constructive, and encouraging feedback on what can be improved.".

Definition assessment_request (prompt : string) (userAudioBase64 mimeType : JValue)
  : GenerateContentParameters :=
  {| model := "gemini-2.5-flash";
     contents := [TextPart prompt; InlineDataPart userAudioBase64 mimeType];
     config :=
       {| responseMimeType := Some "application/json";
          responseSchema :=
            Some (TypeOBJECT [("score", TypeINTEGER); ("feedback", TypeSTRING)]
                    ["score"; "feedback"]);
          responseModalities := [];
          voiceName := None |} |}.

Definition assessPronunciation_call `{Env}
  (word language userAudioBase64 mimeType : JValue) : M JValue :=
  let* word := substitution word in
  let* language := substitution language in
  let prompt := assessment_prompt word language in
  let* response :=
    generateContent (assessment_request prompt userAudioBase64 mimeType) in
  let* jsonText := text_trim response in
  parse jsonText.

Definition handleAssessPronunciation `{Env}
  (word language userAudioBase64 mimeType : JValue) : M JValue :=
  withRetry (assessPronunciation_call word language userAudioBase64 mimeType) 3 1000.

Definition dq : string := String (ascii_of_nat 34) EmptyString.
Definition nl : string := String (ascii_of_nat 10) EmptyString.

Definition BASE_INSTRUCTIONS : string :=
  "
1.  **Enter a Topic:** Type any subject you want to practice, like " +:+ dq +:+
  "fruits," +:+ dq +:+
  " " +:+ dq +:+
  "traveling," +:+ dq +:+
  " or " +:+ dq +:+
  "business." +:+ dq +:+
  "
2.  **Select a Language:** Choose the language you are learning from the dropdown menu.
3.  **Start Practice:** Click the " +:+ dq +:+
  "Start Practice" +:+ dq +:+
  " button. The AI will generate 10 words related to your topic.
4.  **Listen:** For each word, click the play button (‚ñ∂Ô∏è) to hear how a native speaker pronounces it.
5.  **Record:** Click the microphone button (üé§) and pronounce the word clearly.
6.  **Stop & Assess:** Click the stop button (‚èπÔ∏è) when you're done. The AI will analyze your pronunciation.
7.  **Get Feedback:** You will see a score from 1 to 100 and receive tips on how to improve.
8.  **Practice Again:** Try recording again to improve your score, or move to the next word.
".

Definition instructions_request (languageName : string) : GenerateContentParameters :=
  {| model := "gemini-2.5-flash";
     contents :=
       [TextPart ("Translate the following instructions for a web application into "
                  +:+ languageName
                  +:+ ". Keep the formatting (like the bolded parts and numbered list) the same. Do not add any extra text, preamble, or explanation. Just provide the translated text."
                  +:+ nl +:+ nl +:+ "---" +:+ nl +:+ nl +:+ BASE_INSTRUCTIONS)];
     config :=
       {| responseMimeType := None;
          responseSchema := None;
          responseModalities := [];
          voiceName := None |} |}.

Definition translateInstructions_call `{Env} (languageName : string) : M JValue :=
  let* response := generateContent (instructions_request languageName) in
  ret (from_option JStr JUndefined (text response)).

Definition handleGetTranslatedInstructions `{Env} (languageName : JValue) : M JValue :=
  let* languageName := this_string "languageName" languageName in
  if String.eqb (toLowerCase languageName) "english" then ret (JStr BASE_INSTRUCTIONS)
  else
    let cacheKey := instructions_cacheKey languageName in
    let* cached := getCache cacheKey in
    if truthy cached then ret cached
    else
      let* result := withRetry (translateInstructions_call languageName) 3 1000 in
      setCache cacheKey result;;
      ret result.

(** ** Main handler for the serverless environment *)

Record Request : Type := { req_method : string; req_body : string }.

(** A response body is a text or the JSON serialisation of a value. *)
Inductive Body : Type :=
| TextBody (s : string)
| JsonBody (v : JValue).

Record Response : Type := {
  res_body : Body;
  res_status : Z;
  res_headers : list (string * string)
}.

Definition json_headers : list (string * string) :=
  [("Content-Type", "application/json")].

Definition is_action (action : JValue) (name : string) : bool :=
  match action with
  | JStr s => String.eqb s name
  | _ => false
  end.

(** [error.message || 'An internal server error occurred.']. *)
Definition errorMessage (error : JsError) : string :=
  match message error with
  | Some m => if String.eqb m "" then "An internal server error occurred." else m
  | None => "An internal server error occurred."
  end.

Definition ok_response (result : JValue) : Response :=
  {| res_body := JsonBody result; res_status := 200; res_headers := json_headers |}.

(** The [switch (action)] of the main handler. *)
Definition dispatch `{Env} (action payload : JValue) : M Response :=
  if is_action action "generateWords" then
    let* topic := js_get payload "topic" in
    let* language := js_get payload "language" in
    let* result := handleGenerateWords topic language in
    ret (ok_response result)
  else if is_action action "generateSpeech" then
    let* text := js_get payload "text" in
    let* voice := js_get payload "voice" in
    let* result := handleGenerateSpeech text voice in
    ret (ok_response result)
  else if is_action action "assessPronunciation" then
    let* word := js_get payload "word" in
    let* language := js_get payload "language" in
    let* userAudioBase64 := js_get payload "userAudioBase64" in
    let* mimeType := js_get payload "mimeType" in
    let* result := handleAssessPronunciation word language userAudioBase64 mimeType in
    ret (ok_response result)
  else if is_action action "getTranslatedInstructions" then
    let* languageName := js_get payload "languageName" in
    let* result := handleGetTranslatedInstructions languageName in
    ret (ok_response result)
  else
    ret {| res_body := JsonBody (JObj [("error", JStr "Invalid action")]);
           res_status := 400;
           res_headers := json_headers |}.

(** The default export. *)
Definition default_handler `{Env} (req : Request) : M Response :=
  if negb (String.eqb (req_method req) "POST") then
    ret {| res_body := TextBody "Method Not Allowed";
           res_status := 405;
           res_headers := [] |}
  else
    try_catch
      (let* envelope := parse (req_body req) in
       let* action := js_get envelope "action" in
       let* payload := js_get envelope "payload" in
       dispatch action payload)
      (fun error =>
         console_log (error_api error);;
         ret {| res_body := JsonBody (JObj [("error", JStr (errorMessage error))]);
                res_status := 500;
                res_headers := json_headers |}).

(** ** Vocabulary of the properties *)

(** An operation that fails on every attempt with a retryable failure;
    each attempt is one more call on the call counter. *)
Definition always_retryable {T : Type} (apiCall : M T) : Prop :=
  forall w, exists e w',
    apiCall w = (Thrown e, w') /\ isRetryable e = true /\
    ai_calls w' = S (ai_calls w).

(** The failure carries a marker in its message. *)
Definition marked_message (error : JsError) : bool :=
  message_includes error "503" || message_includes error "UNAVAILABLE"
  || message_includes error "overloaded".

(** Two characters that are equal, or an upper-case letter and the
    character 32 places above it, in either order. *)
Definition same_letter (c c' : ascii) : bool :=
  Ascii.eqb c c'
  || (is_upper c && Nat.eqb (nat_of_ascii c') (nat_of_ascii c + 32))
  || (is_upper c' && Nat.eqb (nat_of_ascii c) (nat_of_ascii c' + 32)).

(** Two strings that differ only in the case of their letters. *)
Fixpoint differ_only_in_case (s s' : string) : bool :=
  match s, s' with
  | EmptyString, EmptyString => true
  | String c rest, String c' rest' => same_letter c c' && differ_only_in_case rest rest'
  | _, _ => false
  end.

(** The entry under [key] can be served at the time of [w]. *)
Definition fresh_entry (key : string) (entry : CacheEntry) (w : World) : Prop :=
  cache w !! key = Some entry /\ clock w - timestamp entry < CACHE_TTL_MS.

(** No entry under [key] that a handler would serve at the time of [w]:
    none at all, an expired one, or one whose value is falsy. *)
Definition cache_miss (key : string) (w : World) : Prop :=
  forall entry, fresh_entry key entry w -> truthy (data entry) = false.

(** A computation that neither reads nor writes the cache: it runs the
    same on any cache and hands that cache back. *)
Definition cache_oblivious {A : Type} (m : M A) : Prop :=
  forall c w, m (set_cache c w) = (fst (m w), set_cache c (snd (m w))).

(** The assessment of the data model, as far as its types go: an object
    with a number under [score] and a string under [feedback]. *)
Definition has_score_and_feedback (v : JValue) : bool :=
  match v with
  | JObj fields =>
      match assoc "score" fields, assoc "feedback" fields with
      | Some (JNum _), Some (JStr _) => true
      | _, _ => false
      end
  | _ => false
  end.

(** A word list of the data model: strings, no two of them equal. *)
Definition distinct_words (v : JValue) : Prop :=
  exists ws : list string, v = JArr (List.map JStr ws) /\ NoDup ws.

(** The world in which attempt number [k + 1] of the loop starts when the
    [k] attempts before it have failed and been retried: each of them is
    followed by its warning and its wait, with the delay doubled. *)
Fixpoint before_attempt `{Env} {T : Type} (apiCall : M T) (maxRetries : Z) (k : nat)
  (attempt delay : Z) (w : World) : World :=
  match k with
  | O => w
  | S k' =>
      let failed := snd (apiCall w) in
      let warned := snd (console_log (warn_retrying (attempt + 1) maxRetries delay) failed) in
      let waited := snd (sleep delay warned) in
      before_attempt apiCall maxRetries k' (attempt + 1) (delay * 2) waited
  end.




(** ** Environments and worlds used as examples *)

Definition empty_world : World :=
  {| cache := ∅; clock := 0; console := []; ai_calls := 0 |}.

Definition text_reply (t : string) : Reply :=
  {| elapsed := 250; settled := inr {| text := Some t; candidates := None |} |}.

(** A provider that always answers with the text [t], which [JSON.parse]
    reads as [v]; any other text is rejected. *)
Definition answering (t : string) (v : JValue) : Env :=
  {| provider := fun _ _ => text_reply t;
     JSON_parse := fun s =>
       if String.eqb s t then inr v
       else inl (Error "Unexpected token in JSON");
     Number_toString := fun _ => "0";
     timer := fun ms => Z.max 1 ms |}.

Definition quoted (s : string) : string := dq +:+ s +:+ dq.

(** The JSON text of an object whose [words] is the list [ws], and the
    value it stands for. *)
Definition words_json (ws : list string) : string :=
  "{" +:+ quoted "words" +:+ ":[" +:+ String.concat "," (List.map quoted ws) +:+ "]}".

Definition words_value (ws : list string) : JValue :=
  JObj [("words", JArr (List.map JStr ws))].

(** A response with eleven times the same entry. *)
Definition eleven_a : Env :=
  answering (words_json (repeat "a" 11)) (words_value (repeat "a" 11)).

(** A provider that answers every call with a list of three words. *)
Definition three_words : Env :=
  answering (words_json ["pain"; "fromage"; "vin"])
    (words_value ["pain"; "fromage"; "vin"]).

(** A response that is an object without any field. *)
Definition empty_object : Env := answering "{}" (JObj []).

(** A provider that is overloaded on every call. *)
Definition overloaded : Env :=
  {| provider := fun _ _ =>
       {| elapsed := 40;
          settled := inl {| message := Some "The model is overloaded."; status := Some 503 |} |};
     JSON_parse := fun _ => inl (Error "Unexpected token in JSON");
     Number_toString := fun _ => "0";
     timer := fun ms => Z.max 1 ms |}.

(** A provider that refuses the request for good. *)
Definition refusing : Env :=
  {| provider := fun _ _ =>
       {| elapsed := 40;
          settled := inl {| message := Some "API key not valid."; status := Some 400 |} |};
     JSON_parse := fun _ => inl (Error "Unexpected token in JSON");
     Number_toString := fun _ => "0";
     timer := fun ms => Z.max 1 ms |}.

Definition refused : JsError :=
  {| message := Some "API key not valid."; status := Some 400 |}.

(** One bare call of the provider, the simplest operation to retry. *)
Definition ping `{Env} : M GenerateContentResponse :=
  generateContent (instructions_request "French").

(** ** Vocabulary of the further properties *)

(** An operation that registers exactly one call on the call counter each
    time it is run, whatever its outcome. *)
Definition counts_calls {T : Type} (apiCall : M T) : Prop :=
  forall w, ai_calls (snd (apiCall w)) = S (ai_calls w).

(** The [n]-th call of the provider, on [request], rejects with a retryable
    failure. *)
Definition fails_retryably `{Env} (request : GenerateContentParameters) (n : nat) : Prop :=
  exists e, settled (provider n request) = inl e /\ isRetryable e = true.

(** The warnings of a run that uses up a bound of [maxRetries] attempts:
    one before each retry, with the delay doubled each time. *)
Definition backoff_warnings (maxRetries initialDelay : Z) : list ConsoleEntry :=
  List.map
    (fun i => warn_retrying (Z.of_nat i + 1) maxRetries (initialDelay * 2 ^ Z.of_nat i))
    (seq 0 (Z.to_nat (maxRetries - 1))).

(** The way the cacheable handlers go through the cache, with the key and
    the provider call left open: the three handlers are instances of it. *)
Definition through_cache `{Env} (cacheKey : string) (apiCall : M JValue) : M JValue :=
  let* cached := getCache cacheKey in
  if truthy cached then ret cached
  else
    let* result := withRetry apiCall 3 1000 in
    setCache cacheKey result;;
    ret result.

(** What [handleGenerateWords] finds under [words] is rejected as a wrong
    format: it is absent or falsy, an empty array, or a string. *)
Definition unusable_words (field : JValue) : bool :=
  match js_or field (JArr []) with
  | JArr [] | JStr _ => true
  | _ => false
  end.

(** A provider whose first [k] calls are answered "503" and whose later
    calls resolve with the text [t], which [JSON.parse] reads as [v]. *)
Definition flaky (k : nat) (t : string) (v : JValue) : Env :=
  {| provider := fun n _ =>
       if Nat.ltb n k
       then {| elapsed := 40;
               settled := inl {| message := Some "503 Service Unavailable";
                                 status := None |} |}
       else text_reply t;
     JSON_parse := fun s =>
       if String.eqb s t then inr v
       else inl (Error "Unexpected token in JSON");
     Number_toString := fun _ => "0";
     timer := fun ms => Z.max 1 ms |}.

(** A response that carries the audio [audio] where the speech handler
    looks for it. *)
Definition audio_response (audio : string) : GenerateContentResponse :=
  {| text := None;
     candidates :=
       Some [{| content :=
                  Some {| parts := Some [{| inlineData :=
                                              Some {| blob_data := Some audio |} |}] |} |}] |}.

(** A provider that answers every call with the audio [audio]. *)
Definition speaking (audio : string) : Env :=
  {| provider := fun _ _ => {| elapsed := 900; settled := inr (audio_response audio) |};
     JSON_parse := fun _ => inl (Error "Unexpected token in JSON");
     Number_toString := fun _ => "0";
     timer := fun ms => Z.max 1 ms |}.

(** A provider whose responses carry neither text nor candidates. *)
Definition silent : Env :=
  {| provider := fun _ _ =>
       {| elapsed := 900; settled := inr {| text := None; candidates := None |} |};
     JSON_parse := fun _ => inl (Error "Unexpected token in JSON");
     Number_toString := fun _ => "0";
     timer := fun ms => Z.max 1 ms |}.

(** The value of [v.name] when [v] is neither [undefined] nor [null]. *)
Definition own (v : JValue) (name : string) : JValue :=
  match v with
  | JObj fields => default JUndefined (assoc name fields)
  | _ => JUndefined
  end.

(** [undefined] or [null]. *)
Definition nullish (v : JValue) : bool :=
  match v with
  | JUndefined | JNull => true
  | _ => false
  end.

(** The action is one of the four the main handler has a case for. *)
Definition recognised (action : JValue) : bool :=
  is_action action "generateWords" || is_action action "generateSpeech"
  || is_action action "assessPronunciation" || is_action action "getTranslatedInstructions".

(** The JSON text of a request for [action] whose payload fields are the
    given strings, and the envelope it stands for. *)
Definition envelope_json (action : string) (payload : list (string * string)) : string :=
  "{" +:+ quoted "action" +:+ ":" +:+ quoted action +:+ ","
  +:+ quoted "payload" +:+ ":{"
  +:+ String.concat "," (List.map (fun kv => quoted (fst kv) +:+ ":" +:+ quoted (snd kv)) payload)
  +:+ "}}".

Definition envelope_of (action : string) (payload : list (string * string)) : JValue :=
  JObj [("action", JStr action);
        ("payload", JObj (List.map (fun kv => (fst kv, JStr (snd kv))) payload))].

(** An environment whose [JSON.parse] reads the text [body] as [envelope]
    and whose provider is the one of [base]. *)
Definition receiving (base : Env) (body : string) (envelope : JValue) : Env :=
  {| provider := @provider base;
     JSON_parse := fun s =>
       if String.eqb s body then inr envelope else @JSON_parse base s;
     Number_toString := @Number_toString base;
     timer := @timer base |}.

(** A provider that answers every call with the text [t]. *)
Definition translating (t : string) : Env :=
  {| provider := fun _ _ => text_reply t;
     JSON_parse := fun _ => inl (Error "Unexpected token in JSON");
     Number_toString := fun _ => "0";
     timer := fun ms => Z.max 1 ms |}.

(** ** The client-side service ([services/geminiService.ts]) *)

(** [s.substring(start, finish)]: both indices are brought into the string
    and put in order. *)
Definition js_substring (s : string) (start finish : Z) : string :=
  let len := Z.of_nat (String.length s) in
  let a := Z.max 0 (Z.min start len) in
  let b := Z.max 0 (Z.min finish len) in
  substring (Z.to_nat (Z.min a b)) (Z.to_nat (Z.max a b - Z.min a b)) s.

Module GeminiService.

(** The handling of markdown code blocks in [generateWords], applied to the
    trimmed text of the response. *)
Definition unfence (jsonText : string) : string :=
  let len := Z.of_nat (String.length jsonText) in
  if String.prefix "```json" jsonText then trim (js_substring jsonText 7 (len - 3))
  else if String.prefix "```" jsonText then trim (js_substring jsonText 3 (len - 3))
  else jsonText.

(** [generateWords] from the response of the provider to its result: the
    text is trimmed and unfenced, parsed, and the list under [words] cut to
    10 entries. *)
Definition generateWords_result `{Env} (response : GenerateContentResponse) : M JValue :=
  let* jsonText := text_trim response in
  let jsonText := unfence jsonText in
  let* result := parse jsonText in
  let* words := js_get result "words" in
  if negb (truthy words) || negb (Array_isArray words)
  then throw (Error "Invalid response format from API: 'words' array not found.")
  else slice_0_10 (js_or words (JArr [])).

End GeminiService.

(** * Properties *)

(** The loop written with its test. *)
Lemma withRetry_loop_step `{Env} {T : Type} (apiCall : M T) (maxRetries attempt delay : Z) :
  withRetry_loop apiCall maxRetries attempt delay =
  if attempt <? maxRetries then
    try_catch apiCall (fun error =>
      if isRetryable error && (attempt + 1 <? maxRetries) then
        console_log (warn_retrying (attempt + 1) maxRetries delay);;
        sleep delay;;
        withRetry_loop apiCall maxRetries (attempt + 1) (delay * 2)
      else if isRetryable error then
        console_log (error_exhausted maxRetries error);;
        throw busy_error
      else throw error)
  else throw fallthrough_error.
Proof.
  rewrite withRetry_loop_equation_1 at 1.
  destruct (Z_lt_dec attempt maxRetries) as [Hlt | Hge]; simpl.
  - apply Z.ltb_lt in Hlt. rewrite Hlt. reflexivity.
  - apply Z.nlt_ge, Z.ltb_ge in Hge. rewrite Hge. reflexivity.
Qed.

Section RetryProperties.
Context `{Env} {T : Type} (apiCall : M T).

Lemma withRetry_loop_skipped (maxRetries attempt delay : Z) (w : World) :
  maxRetries <= attempt ->
  withRetry_loop apiCall maxRetries attempt delay w = (Thrown fallthrough_error, w).
Proof.
  intros Hge. rewrite withRetry_loop_step.
  apply Z.ltb_ge in Hge. now rewrite Hge.
Qed.

Lemma withRetry_loop_success (maxRetries attempt delay : Z) (w w' : World) (a : T) :
  attempt < maxRetries ->
  apiCall w = (Returned a, w') ->
  withRetry_loop apiCall maxRetries attempt delay w = (Returned a, w').
Proof.
  intros Hlt Hcall. rewrite withRetry_loop_step.
  apply Z.ltb_lt in Hlt. rewrite Hlt. unfold try_catch. now rewrite Hcall.
Qed.

Lemma withRetry_loop_fatal (maxRetries attempt delay : Z) (w w' : World) (e : JsError) :
  attempt < maxRetries ->
  apiCall w = (Thrown e, w') ->
  isRetryable e = false ->
  withRetry_loop apiCall maxRetries attempt delay w = (Thrown e, w').
Proof.
  intros Hlt Hcall Hfatal. rewrite withRetry_loop_step.
  apply Z.ltb_lt in Hlt. rewrite Hlt. unfold try_catch.
  now rewrite Hcall, Hfatal.
Qed.

Lemma withRetry_loop_exhausts (Hfails : always_retryable apiCall) (n : nat) :
  forall maxRetries attempt delay w,
    attempt < maxRetries ->
    Z.to_nat (maxRetries - attempt) = n ->
    exists e w0 w1 w',
      withRetry_loop apiCall maxRetries attempt delay w = (Thrown busy_error, w') /\
      apiCall w0 = (Thrown e, w1) /\
      isRetryable e = true /\
      last (console w') = Some (error_exhausted maxRetries e) /\
      Z.of_nat (ai_calls w') = Z.of_nat (ai_calls w) + (maxRetries - attempt).
Proof.
  induction n as [|n IH]; intros maxRetries attempt delay w Hlt Hn; [lia|].
  rewrite withRetry_loop_step.
  destruct (Hfails w) as (e & w1 & Hcall & He & Hcount).
  apply Z.ltb_lt in Hlt as Hlt'. rewrite Hlt'.
  unfold try_catch. rewrite Hcall, He. simpl.
  destruct (attempt + 1 <? maxRetries) eqn:Hnext.
  - apply Z.ltb_lt in Hnext.
    unfold bind at 1. simpl. unfold bind at 1. simpl.
    match goal with
    | |- context [withRetry_loop _ _ _ _ ?w2] =>
        destruct (IH maxRetries (attempt + 1) (delay * 2) w2)
          as (e' & wa & wb & w' & Hrun & Hlast & He' & Hlog & Hcount'); [lia | lia |]
    end.
    exists e', wa, wb, w'. repeat split; try assumption.
    rewrite Hcount'. simpl. lia.
  - apply Z.ltb_ge in Hnext.
    exists e, w, w1, (log (error_exhausted maxRetries e) w1).
    repeat split; try assumption.
    + simpl. apply last_snoc.
    + simpl. lia.
Qed.
End RetryProperties.

Lemma busy_message_unmarked (e : JsError) :
  marked_message e = true -> message e <> message busy_error.
Proof.
  intros Hmarked Heq. unfold marked_message, message_includes in Hmarked.
  rewrite Heq in Hmarked. vm_compute in Hmarked. discriminate.
Qed.

Lemma withRetry_loop_last_attempt `{Env} {T : Type} (apiCall : M T) (maxRetries : Z)
  (Hfails : always_retryable apiCall) (n : nat) :
  forall attempt delay w,
    Z.to_nat (maxRetries - attempt) = S n ->
    exists e w1,
      apiCall (before_attempt apiCall maxRetries n attempt delay w) = (Thrown e, w1) /\
      isRetryable e = true /\
      withRetry_loop apiCall maxRetries attempt delay w
      = (Thrown busy_error, log (error_exhausted maxRetries e) w1) /\
      ai_calls w1 = (ai_calls w + S n)%nat.
Proof.
  induction n as [|n IH]; intros attempt delay w Hn.
  - destruct (Hfails w) as (e & w1 & Hcall & He & Hcount).
    exists e, w1. simpl. split; [exact Hcall|]. split; [exact He|].
    rewrite withRetry_loop_step.
    assert (Hlt : (attempt <? maxRetries) = true) by (apply Z.ltb_lt; lia).
    assert (Hnext : (attempt + 1 <? maxRetries) = false) by (apply Z.ltb_ge; lia).
    rewrite Hlt. unfold try_catch. rewrite Hcall, He, Hnext. simpl.
    split; [reflexivity | lia].
  - destruct (Hfails w) as (e & w1 & Hcall & He & Hcount).
    rewrite withRetry_loop_step.
    assert (Hlt : (attempt <? maxRetries) = true) by (apply Z.ltb_lt; lia).
    assert (Hnext : (attempt + 1 <? maxRetries) = true) by (apply Z.ltb_lt; lia).
    rewrite Hlt. unfold try_catch. rewrite Hcall, He, Hnext.
    unfold bind, console_log, sleep. simpl. rewrite Hcall. simpl.
    match goal with
    | |- context [withRetry_loop _ _ _ _ ?w2] =>
        destruct (IH (attempt + 1) (delay * 2) w2)
          as (e' & w' & Hlast & He' & Hrun & Hcount'); [lia|]
    end.
    exists e', w'. split; [exact Hlast|]. split; [exact He'|].
    split; [exact Hrun|]. simpl in Hcount'. lia.
Qed.

(** C1. When the operation fails on every attempt with a retryable failure,
    [withRetry] with a bound of [maxRetries] attempts, 1 or more, makes
    exactly [maxRetries] attempts: after [maxRetries - 1] failed attempts,
    each followed by its warning and its wait, the last attempt fails with
    some failure [e]; the run then ends in the world that attempt left, with
    [e] logged, and throws the busy error.  The message of the busy error is
    not the message of any failure that carries a marker. *)
Theorem withRetry_always_retryable `{Env} {T : Type} (apiCall : M T)
  (maxRetries initialDelay : Z) (w : World) :
  always_retryable apiCall ->
  1 <= maxRetries ->
  let last :=
    before_attempt apiCall maxRetries (Z.to_nat (maxRetries - 1)) 0 initialDelay w in
  exists e w1,
    apiCall last = (Thrown e, w1) /\
    isRetryable e = true /\
    withRetry apiCall maxRetries initialDelay w
    = (Thrown busy_error, log (error_exhausted maxRetries e) w1) /\
    Z.of_nat (ai_calls w1) = Z.of_nat (ai_calls w) + maxRetries /\
    (forall e', marked_message e' = true -> message e' <> message busy_error).
Proof.
  intros Hfails Hpos last.
  destruct (withRetry_loop_last_attempt apiCall maxRetries Hfails
              (Z.to_nat (maxRetries - 1)) 0 initialDelay w)
    as (e & w1 & Hlast & He & Hrun & Hcount); [lia|].
  exists e, w1. split; [exact Hlast|]. split; [exact He|]. split; [exact Hrun|].
  split; [lia | exact busy_message_unmarked].
Qed.

Lemma overloaded_always_retryable : always_retryable (@ping overloaded).
Proof.
  intros w. eexists _, _. split; [reflexivity|]. split; reflexivity.
Qed.

Lemma withRetry_always_retryable_witness :
  let last := @before_attempt overloaded _ (@ping overloaded) 3 2 0 1000 empty_world in
  exists e w1,
    @ping overloaded last = (Thrown e, w1) /\
    isRetryable e = true /\
    @withRetry overloaded _ (@ping overloaded) 3 1000 empty_world
    = (Thrown busy_error, log (error_exhausted 3 e) w1) /\
    Z.of_nat (ai_calls w1) = Z.of_nat (ai_calls empty_world) + 3 /\
    (forall e', marked_message e' = true -> message e' <> message busy_error).
Proof.
  apply (@withRetry_always_retryable overloaded _ (@ping overloaded) 3 1000 empty_world).
  - exact overloaded_always_retryable.
  - lia.
Defined.

(** C5. When the first attempt fails with a failure that is not retryable,
    [withRetry] stops there, whatever the bound of 1 or more attempts and
    however many of them remain: it ends in the world that single attempt
    left, nothing logged and no wait made, and throws the failure of that
    attempt as it is. *)
Theorem withRetry_fatal_first `{Env} {T : Type} (apiCall : M T)
  (maxRetries initialDelay : Z) (w w' : World) (e : JsError) :
  apiCall w = (Thrown e, w') ->
  isRetryable e = false ->
  1 <= maxRetries ->
  withRetry apiCall maxRetries initialDelay w = (Thrown e, w').
Proof.
  intros Hcall Hfatal Hpos. apply withRetry_loop_fatal; [lia | assumption | assumption].
Qed.

Lemma withRetry_fatal_first_witness :
  @ping refusing empty_world = (Thrown refused, set_clock 40 (count_call empty_world)) /\
  isRetryable refused = false /\
  @withRetry refusing _ (@ping refusing) 3 1000 empty_world
  = (Thrown refused, set_clock 40 (count_call empty_world)).
Proof.
  split; [reflexivity|]. split; [reflexivity|].
  apply (@withRetry_fatal_first refusing _ (@ping refusing) 3 1000 empty_world
           (set_clock 40 (count_call empty_world)) refused).
  - reflexivity.
  - reflexivity.
  - lia.
Defined.

(** ** The result cache *)

Lemma getCache_fresh (key : string) (entry : CacheEntry) (w : World) :
  fresh_entry key entry w -> getCache key w = (Returned (data entry), w).
Proof.
  intros [Hlookup Hfresh]. unfold getCache. rewrite Hlookup.
  apply Z.ltb_lt in Hfresh. now rewrite Hfresh.
Qed.

Lemma getCache_stale (key : string) (entry : CacheEntry) (w : World) :
  cache w !! key = Some entry ->
  CACHE_TTL_MS <= clock w - timestamp entry ->
  getCache key w = (Returned JNull, set_cache (delete key (cache w)) w).
Proof.
  intros Hlookup Hstale. unfold getCache. rewrite Hlookup.
  apply Z.ltb_ge in Hstale. now rewrite Hstale.
Qed.

Lemma setCache_fresh (key : string) (v : JValue) (w : World) (t : Z) :
  t - clock w < CACHE_TTL_MS ->
  fresh_entry key {| timestamp := clock w; data := v |}
    (set_clock t (snd (setCache key v w))).
Proof.
  intros Hfresh. split; simpl; [apply lookup_insert_eq | exact Hfresh].
Qed.

(** C3. A [getCache] of a key after a [setCache] of it, at any time [t] less
    than the TTL after the insertion, returns the stored value and leaves
    the whole world, the entry and its insertion time included, as it was;
    a [getCache] at a time [t'] one TTL or more after the insertion then
    finds the entry expired, whenever the first one took place. *)
Theorem getCache_after_setCache (key : string) (v : JValue) (w : World) (t t' : Z) :
  t - clock w < CACHE_TTL_MS ->
  let stored := set_clock t (snd (setCache key v w)) in
  getCache key stored = (Returned v, stored) /\
  cache (snd (getCache key stored)) !! key = Some {| timestamp := clock w; data := v |} /\
  (CACHE_TTL_MS <= t' - clock w ->
   fst (getCache key (set_clock t' (snd (getCache key stored)))) = Returned JNull).
Proof.
  intros Hfresh stored.
  pose proof (getCache_fresh key _ _ (setCache_fresh key v w t Hfresh)) as Hget.
  fold stored in Hget. simpl in Hget. rewrite Hget. simpl.
  split; [reflexivity|]. split; [apply lookup_insert_eq|].
  intros Hstale.
  rewrite (getCache_stale key {| timestamp := clock w; data := v |}); simpl;
    [reflexivity | apply lookup_insert_eq | exact Hstale].
Qed.

Lemma getCache_after_setCache_witness :
  let stored := set_clock 3599999 (snd (setCache "words:food:french" (JArr [JStr "pain"]) empty_world)) in
  getCache "words:food:french" stored = (Returned (JArr [JStr "pain"]), stored) /\
  cache (snd (getCache "words:food:french" stored)) !! "words:food:french"
    = Some {| timestamp := 0; data := JArr [JStr "pain"] |} /\
  (CACHE_TTL_MS <= 3600000 - 0 ->
   fst (getCache "words:food:french"
          (set_clock 3600000 (snd (getCache "words:food:french" stored))))
   = Returned JNull).
Proof.
  apply (getCache_after_setCache "words:food:french" (JArr [JStr "pain"])
           empty_world 3599999 3600000).
  vm_compute. reflexivity.
Defined.

(** C4. A [getCache] of a key whose entry is one TTL old or older returns
    [null] and removes the entry; a [setCache] of the key after that, at any
    time [t1], returns normally and makes the new value retrievable at every
    time [t2] less than the TTL after [t1]. *)
Theorem getCache_expired_then_setCache
  (key : string) (entry : CacheEntry) (w : World) (v : JValue) (t1 t2 : Z) :
  cache w !! key = Some entry ->
  CACHE_TTL_MS <= clock w - timestamp entry ->
  t2 - t1 < CACHE_TTL_MS ->
  let purged := snd (getCache key w) in
  getCache key w = (Returned JNull, purged) /\
  cache purged !! key = None /\
  fst (setCache key v (set_clock t1 purged)) = Returned tt /\
  let restored := set_clock t2 (snd (setCache key v (set_clock t1 purged))) in
  getCache key restored = (Returned v, restored).
Proof.
  intros Hlookup Hstale Hfresh purged.
  pose proof (getCache_stale key entry w Hlookup Hstale) as Hget.
  subst purged. rewrite Hget. simpl.
  split; [reflexivity|]. split; [apply lookup_delete_eq|]. split; [reflexivity|].
  apply (getCache_fresh key {| timestamp := t1; data := v |}).
  split; simpl; [apply lookup_insert_eq | exact Hfresh].
Qed.

Lemma getCache_expired_then_setCache_witness :
  let w := set_clock 3600000 (snd (setCache "speech:pain:kore" (JStr "UklGRg") empty_world)) in
  let purged := snd (getCache "speech:pain:kore" w) in
  getCache "speech:pain:kore" w = (Returned JNull, purged) /\
  cache purged !! "speech:pain:kore" = None /\
  fst (setCache "speech:pain:kore" (JStr "T2dnUw") (set_clock 3600500 purged)) = Returned tt /\
  let restored :=
    set_clock 3700000 (snd (setCache "speech:pain:kore" (JStr "T2dnUw") (set_clock 3600500 purged))) in
  getCache "speech:pain:kore" restored = (Returned (JStr "T2dnUw"), restored).
Proof.
  apply (getCache_expired_then_setCache "speech:pain:kore"
           {| timestamp := 0; data := JStr "UklGRg" |}
           (set_clock 3600000 (snd (setCache "speech:pain:kore" (JStr "UklGRg") empty_world)))
           (JStr "T2dnUw") 3600500 3700000).
  - vm_compute. reflexivity.
  - vm_compute. discriminate.
  - vm_compute. reflexivity.
Defined.

(** ** Computations that leave the cache alone *)

Lemma set_cache_same (w : World) : set_cache (cache w) w = w.
Proof. now destruct w. Qed.

Lemma oblivious_ret {A : Type} (a : A) : cache_oblivious (ret a).
Proof. now intros c w. Qed.

Lemma oblivious_throw {A : Type} (e : JsError) : cache_oblivious (@throw A e).
Proof. now intros c w. Qed.

Lemma oblivious_bind {A B : Type} (m : M A) (k : A -> M B) :
  cache_oblivious m -> (forall a, cache_oblivious (k a)) -> cache_oblivious (bind m k).
Proof.
  intros Hm Hk c w. unfold bind. rewrite Hm.
  destruct (m w) as [[a|e] w']; simpl; [apply Hk | reflexivity].
Qed.

Lemma oblivious_try_catch {A : Type} (body : M A) (handler : JsError -> M A) :
  cache_oblivious body -> (forall e, cache_oblivious (handler e)) ->
  cache_oblivious (try_catch body handler).
Proof.
  intros Hbody Hhandler c w. unfold try_catch. rewrite Hbody.
  destruct (body w) as [[a|e] w']; simpl; [reflexivity | apply Hhandler].
Qed.

Lemma oblivious_console_log (e : ConsoleEntry) : cache_oblivious (console_log e).
Proof. now intros c w. Qed.

Lemma oblivious_sleep `{Env} (ms : Z) : cache_oblivious (sleep ms).
Proof. now intros c w. Qed.

Lemma oblivious_generateContent `{Env} (request : GenerateContentParameters) :
  cache_oblivious (generateContent request).
Proof.
  intros c w. unfold generateContent. simpl.
  now destruct (settled (provider (ai_calls w) request)).
Qed.

Lemma oblivious_text_trim (response : GenerateContentResponse) :
  cache_oblivious (text_trim response).
Proof.
  unfold text_trim. destruct (text response); [apply oblivious_ret | apply oblivious_throw].
Qed.

Lemma oblivious_substitution `{Env} (v : JValue) : cache_oblivious (substitution v).
Proof.
  unfold substitution. destruct (js_String v); [apply oblivious_ret | apply oblivious_throw].
Qed.

Lemma oblivious_parse `{Env} (s : string) : cache_oblivious (parse s).
Proof.
  unfold parse. destruct (JSON_parse s); [apply oblivious_throw | apply oblivious_ret].
Qed.

Lemma oblivious_withRetry_loop `{Env} {T : Type} (apiCall : M T) (maxRetries : Z) :
  cache_oblivious apiCall ->
  forall (n : nat) (attempt delay : Z),
    Z.to_nat (maxRetries - attempt) = n ->
    cache_oblivious (withRetry_loop apiCall maxRetries attempt delay).
Proof.
  intros Hcall. induction n as [|n IH]; intros attempt delay Hn.
  - intros c w. rewrite !withRetry_loop_skipped by lia. reflexivity.
  - rewrite withRetry_loop_step.
    destruct (attempt <? maxRetries); [|apply oblivious_throw].
    apply oblivious_try_catch; [exact Hcall|]. intros e.
    destruct (isRetryable e && (attempt + 1 <? maxRetries)).
    + apply oblivious_bind; [apply oblivious_console_log|]. intros _.
      apply oblivious_bind; [apply oblivious_sleep|]. intros _.
      apply IH. lia.
    + destruct (isRetryable e); [|apply oblivious_throw].
      apply oblivious_bind; [apply oblivious_console_log|]. intros _.
      apply oblivious_throw.
Qed.

Lemma oblivious_withRetry `{Env} {T : Type} (apiCall : M T) (maxRetries initialDelay : Z) :
  cache_oblivious apiCall -> cache_oblivious (withRetry apiCall maxRetries initialDelay).
Proof.
  intros Hcall. now apply (oblivious_withRetry_loop apiCall maxRetries Hcall
                             (Z.to_nat (maxRetries - 0))).
Qed.

(** C9. A call of [handleAssessPronunciation], whether it returns or throws,
    ends with the cache it started with, and it runs the same on any other
    cache, which it hands back untouched: the cache is neither written nor
    read. *)
Theorem handleAssessPronunciation_leaves_cache `{Env}
  (word language userAudioBase64 mimeType : JValue) (w : World) :
  cache (snd (handleAssessPronunciation word language userAudioBase64 mimeType w)) = cache w /\
  forall c : gmap string CacheEntry,
    handleAssessPronunciation word language userAudioBase64 mimeType (set_cache c w)
    = (fst (handleAssessPronunciation word language userAudioBase64 mimeType w),
       set_cache c (snd (handleAssessPronunciation word language userAudioBase64 mimeType w))).
Proof.
  assert (Hobl : cache_oblivious
                   (handleAssessPronunciation word language userAudioBase64 mimeType)).
  { apply oblivious_withRetry. unfold assessPronunciation_call.
    apply oblivious_bind; [apply oblivious_substitution|]. intros word'.
    apply oblivious_bind; [apply oblivious_substitution|]. intros language'.
    apply oblivious_bind; [apply oblivious_generateContent|]. intros response.
    apply oblivious_bind; [apply oblivious_text_trim|]. intros jsonText.
    apply oblivious_parse. }
  split; [|intros c; apply Hobl].
  pose proof (Hobl (cache w) w) as Hsame. rewrite set_cache_same in Hsame.
  rewrite Hsame at 1. reflexivity.
Qed.

(** ** The entry point *)

(** C8, amended. A request whose method is not POST is answered with status
    405 and the text body "Method Not Allowed", no header set; the world is
    left as it was, so no handler ran and the provider was not called, and
    the answer is the same for every body and every [JSON.parse]. *)
Theorem default_handler_wrong_method `{Env} (req : Request) (w : World) :
  req_method req <> "POST" ->
  default_handler req w
  = (Returned {| res_body := TextBody "Method Not Allowed";
                 res_status := 405;
                 res_headers := [] |}, w).
Proof.
  intros Hmethod. unfold default_handler.
  destruct (String.eqb_spec (req_method req) "POST") as [Heq|_]; [contradiction|].
  reflexivity.
Qed.

Lemma default_handler_wrong_method_witness :
  @default_handler overloaded {| req_method := "GET"; req_body := "{" |} empty_world
  = (Returned {| res_body := TextBody "Method Not Allowed";
                 res_status := 405;
                 res_headers := [] |}, empty_world).
Proof.
  apply (@default_handler_wrong_method overloaded
           {| req_method := "GET"; req_body := "{" |} empty_world).
  simpl. discriminate.
Defined.

(** C8 as stated fails for a GET request: the body of the answer is not
    empty. *)
Lemma default_handler_wrong_method_body :
  exists response w',
    @default_handler overloaded {| req_method := "GET"; req_body := "{" |} empty_world
    = (Returned response, w') /\
    res_status response = 405 /\
    res_body response = TextBody "Method Not Allowed" /\
    res_body response <> TextBody "".
Proof.
  eexists _, _. split; [reflexivity|]. simpl. repeat split. discriminate.
Qed.

(** ** Cache keys *)

Lemma toLowerCase_char_of_upper (c : ascii) :
  is_upper c = true ->
  toLowerCase_char (ascii_of_nat (nat_of_ascii c + 32)) = toLowerCase_char c.
Proof.
  destruct c as [[] [] [] [] [] [] [] []]; vm_compute; intros Hupper;
    first [discriminate Hupper | reflexivity].
Qed.

Lemma same_letter_toLowerCase (c c' : ascii) :
  same_letter c c' = true -> toLowerCase_char c = toLowerCase_char c'.
Proof.
  unfold same_letter. intros Hsame.
  apply orb_true_iff in Hsame as [Hsame | Hlower].
  - apply orb_true_iff in Hsame as [Heq | Hupper].
    + apply Ascii.eqb_eq in Heq. now subst.
    + apply andb_true_iff in Hupper as [Hupper Hcode].
      apply Nat.eqb_eq in Hcode.
      rewrite <- (ascii_nat_embedding c'), Hcode.
      now rewrite toLowerCase_char_of_upper.
  - apply andb_true_iff in Hlower as [Hupper Hcode].
    apply Nat.eqb_eq in Hcode.
    rewrite <- (ascii_nat_embedding c), Hcode.
    now rewrite toLowerCase_char_of_upper.
Qed.

Lemma differ_only_in_case_toLowerCase (s : string) :
  forall s', differ_only_in_case s s' = true -> toLowerCase s = toLowerCase s'.
Proof.
  induction s as [|c rest IH]; intros [|c' rest'] Hcase; simpl in *;
    try discriminate; [reflexivity|].
  apply andb_true_iff in Hcase as [Hletter Hrest].
  now rewrite (same_letter_toLowerCase c c' Hletter), (IH rest' Hrest).
Qed.

Ltac run_step :=
  unfold bind at 1; cbn [this_string ret throw fst snd].

Lemma handleGenerateWords_hit `{Env} (topic language : string) (entry : CacheEntry)
  (w : World) :
  fresh_entry (words_cacheKey topic language) entry w ->
  truthy (data entry) = true ->
  handleGenerateWords (JStr topic) (JStr language) w = (Returned (data entry), w).
Proof.
  intros Hfresh Htruthy. unfold handleGenerateWords.
  do 3 run_step. rewrite (getCache_fresh _ _ _ Hfresh). now rewrite Htruthy.
Qed.

Lemma handleGenerateSpeech_hit `{Env} (text voice : string) (entry : CacheEntry)
  (w : World) :
  fresh_entry (speech_cacheKey text voice) entry w ->
  truthy (data entry) = true ->
  handleGenerateSpeech (JStr text) (JStr voice) w = (Returned (data entry), w).
Proof.
  intros Hfresh Htruthy. unfold handleGenerateSpeech.
  do 3 run_step. rewrite (getCache_fresh _ _ _ Hfresh). now rewrite Htruthy.
Qed.

Lemma handleGetTranslatedInstructions_hit `{Env} (languageName : string)
  (entry : CacheEntry) (w : World) :
  String.eqb (toLowerCase languageName) "english" = false ->
  fresh_entry (instructions_cacheKey languageName) entry w ->
  truthy (data entry) = true ->
  handleGetTranslatedInstructions (JStr languageName) w = (Returned (data entry), w).
Proof.
  intros Hother Hfresh Htruthy. unfold handleGetTranslatedInstructions.
  run_step. rewrite Hother. run_step.
  rewrite (getCache_fresh _ _ _ Hfresh). now rewrite Htruthy.
Qed.

Lemma handleGetTranslatedInstructions_english `{Env} (languageName : string) (w : World) :
  String.eqb (toLowerCase languageName) "english" = true ->
  handleGetTranslatedInstructions (JStr languageName) w
  = (Returned (JStr BASE_INSTRUCTIONS), w).
Proof.
  intros Henglish. unfold handleGetTranslatedInstructions.
  run_step. now rewrite Henglish.
Qed.




(** ** Word lists *)

Lemma getCache_miss (key : string) (w : World) :
  cache_miss key w ->
  exists v w1,
    getCache key w = (Returned v, w1) /\ truthy v = false /\
    ai_calls w1 = ai_calls w /\ clock w1 = clock w /\
    forall entry, <[key := entry]> (cache w1) = <[key := entry]> (cache w).
Proof.
  intros Hmiss. unfold getCache.
  destruct (cache w !! key) as [entry|] eqn:Hlookup.
  - destruct (clock w - timestamp entry <? CACHE_TTL_MS) eqn:Hfresh.
    + exists (data entry), w. repeat split.
      apply Hmiss. split; [assumption | now apply Z.ltb_lt].
    + eexists _, _. split; [reflexivity|]. repeat split.
      intros e. simpl. apply insert_delete_eq.
  - eexists _, _. split; [reflexivity|]. repeat split.
    intros e. simpl. apply insert_delete_eq.
Qed.

Lemma generateWords_call_array `{Env} (topic language : string) (w : World)
  (response : GenerateContentResponse) (t : string)
  (fields : list (string * JValue)) (items : list JValue) :
  settled (provider (ai_calls w) (words_request topic language)) = inr response ->
  text response = Some t ->
  JSON_parse (trim t) = inr (JObj fields) ->
  assoc "words" fields = Some (JArr items) ->
  items <> [] ->
  generateWords_call topic language w
  = (Returned (JArr (firstn 10 items)),
     set_clock (clock w + elapsed (provider (ai_calls w) (words_request topic language)))
       (count_call w)).
Proof.
  intros Hreply Htext Hparse Hwords Hitems.
  unfold generateWords_call, bind, generateContent.
  rewrite Hreply. unfold text_trim. rewrite Htext. unfold ret at 1.
  unfold parse. rewrite Hparse. unfold ret at 1.
  unfold js_get. rewrite Hwords. simpl.
  destruct items as [|item items]; [contradiction|]. reflexivity.
Qed.

(** C7, amended. On a cache miss, when the provider's response parses to an
    object whose [words] is a non-empty array, [handleGenerateWords] makes
    one provider call and returns the first 10 entries of that array in
    their order: at most 10 entries, exactly 10 when the array has more.
    Nothing is said of the entries being distinct or being words. *)
Theorem handleGenerateWords_truncates `{Env} (topic language : string) (w : World)
  (response : GenerateContentResponse) (t : string)
  (fields : list (string * JValue)) (items : list JValue) :
  cache_miss (words_cacheKey topic language) w ->
  settled (provider (ai_calls w) (words_request topic language)) = inr response ->
  text response = Some t ->
  JSON_parse (trim t) = inr (JObj fields) ->
  assoc "words" fields = Some (JArr items) ->
  items <> [] ->
  exists w',
    handleGenerateWords (JStr topic) (JStr language) w
    = (Returned (JArr (firstn 10 items)), w') /\
    (firstn 10 items ++ skipn 10 items)%list = items /\
    (length (firstn 10 items) <= 10)%nat /\
    ((10 < length items)%nat -> length (firstn 10 items) = 10%nat) /\
    ai_calls w' = S (ai_calls w).
Proof.
  intros Hmiss Hreply Htext Hparse Hwords Hitems.
  destruct (getCache_miss _ _ Hmiss) as (v & w1 & Hget & Hfalsy & Hcalls & Hclock & _).
  unfold handleGenerateWords. do 3 run_step. rewrite Hget, Hfalsy.
  rewrite <- Hcalls in Hreply.
  pose proof (generateWords_call_array topic language w1 response t fields items
                Hreply Htext Hparse Hwords Hitems) as Hcall.
  unfold bind at 1. unfold withRetry.
  rewrite (withRetry_loop_success _ 3 0 1000 _ _ _ ltac:(lia) Hcall).
  eexists. split; [reflexivity|].
  split; [apply firstn_skipn|]. split; [apply firstn_le_length|].
  split; [intros Hlong; apply firstn_length_le; lia|].
  simpl. now rewrite Hcalls.
Qed.

Lemma handleGenerateWords_truncates_witness :
  exists w',
    @handleGenerateWords eleven_a (JStr "Food") (JStr "French") empty_world
    = (Returned (JArr (firstn 10 (repeat (JStr "a") 11))), w') /\
    (firstn 10 (repeat (JStr "a") 11) ++ skipn 10 (repeat (JStr "a") 11))%list
    = repeat (JStr "a") 11 /\
    (length (firstn 10 (repeat (JStr "a") 11)) <= 10)%nat /\
    ((10 < length (repeat (JStr "a") 11))%nat ->
     length (firstn 10 (repeat (JStr "a") 11)) = 10%nat) /\
    ai_calls w' = S (ai_calls empty_world).
Proof.
  apply (@handleGenerateWords_truncates eleven_a "Food" "French" empty_world
           {| text := Some (words_json (repeat "a" 11)); candidates := None |}
           (words_json (repeat "a" 11))
           [("words", JArr (repeat (JStr "a") 11))]).
  - intros entry [Hlookup _]. vm_compute in Hlookup. discriminate.
  - reflexivity.
  - reflexivity.
  - reflexivity.
  - reflexivity.
  - discriminate.
Defined.

(** C7 as stated fails for a response with eleven equal entries: the ten
    entries returned are not distinct. *)
Lemma handleGenerateWords_keeps_duplicates :
  exists w',
    @handleGenerateWords eleven_a (JStr "Food") (JStr "French") empty_world
    = (Returned (JArr (repeat (JStr "a") 10)), w') /\
    ~ distinct_words (JArr (repeat (JStr "a") 10)).
Proof.
  eexists. split; [vm_compute; reflexivity|].
  intros (ws & Heq & Hnodup). injection Heq as Heq.
  destruct ws as [|x [|y ws]]; try discriminate.
  simpl in Heq. inversion Heq; subst.
  inversion Hnodup as [|? ? Hnotin _]; subst.
  apply Hnotin. now left.
Qed.

(** ** Assessments *)

(** C2, amended. [handleAssessPronunciation] asks for a response under a
    schema that requires an integer [score] and a string [feedback], and,
    when the provider resolves, returns whatever value the text of the
    response parses to, without looking at its fields.  It fails only when
    the response has no text or [JSON.parse] rejects the text; a rejection
    that is not retryable is thrown as it is after this one call. *)
Theorem handleAssessPronunciation_unvalidated `{Env}
  (word language userAudioBase64 mimeType : JValue) (word' language' : string)
  (w : World) (response : GenerateContentResponse) :
  let request :=
    assessment_request (assessment_prompt word' language') userAudioBase64 mimeType in
  let w' := set_clock (clock w + elapsed (provider (ai_calls w) request)) (count_call w) in
  js_String word = Some word' ->
  js_String language = Some language' ->
  settled (provider (ai_calls w) request) = inr response ->
  responseSchema (config request)
  = Some (TypeOBJECT [("score", TypeINTEGER); ("feedback", TypeSTRING)]
            ["score"; "feedback"]) /\
  (forall t v,
     text response = Some t -> JSON_parse (trim t) = inr v ->
     handleAssessPronunciation word language userAudioBase64 mimeType w
     = (Returned v, w')) /\
  (forall t e,
     text response = Some t -> JSON_parse (trim t) = inl e -> isRetryable e = false ->
     handleAssessPronunciation word language userAudioBase64 mimeType w
     = (Thrown e, w')) /\
  (text response = None ->
   handleAssessPronunciation word language userAudioBase64 mimeType w
   = (Thrown (TypeError "Cannot read properties of undefined (reading 'trim')"), w')).
Proof.
  intros request w' Hword Hlanguage Hreply. split; [reflexivity|].
  assert (Hcall : assessPronunciation_call word language userAudioBase64 mimeType w
                  = (let* jsonText := text_trim response in parse jsonText) w').
  { unfold assessPronunciation_call, substitution. rewrite Hword, Hlanguage.
    unfold bind at 1. unfold ret at 1. unfold bind at 1. unfold ret at 1.
    unfold bind at 1. unfold generateContent. fold request. now rewrite Hreply. }
  unfold handleAssessPronunciation, withRetry.
  split; [|split].
  - intros t v Htext Hparse. apply withRetry_loop_success; [lia|].
    rewrite Hcall. unfold bind, text_trim. rewrite Htext. unfold ret at 1.
    unfold parse. now rewrite Hparse.
  - intros t e Htext Hparse Hfatal. apply withRetry_loop_fatal; [lia| |exact Hfatal].
    rewrite Hcall. unfold bind, text_trim. rewrite Htext. unfold ret at 1.
    unfold parse. now rewrite Hparse.
  - intros Htext. apply withRetry_loop_fatal; [lia| |reflexivity].
    rewrite Hcall. unfold bind, text_trim. now rewrite Htext.
Qed.

Lemma handleAssessPronunciation_unvalidated_witness :
  @js_String empty_object (JStr "chat") = Some "chat" /\
  @js_String empty_object (JStr "French") = Some "French" /\
  settled (@provider empty_object (ai_calls empty_world)
             (assessment_request (assessment_prompt "chat" "French")
                (JStr "AAAA") (JStr "audio/webm")))
  = inr {| text := Some "{}"; candidates := None |} /\
  @handleAssessPronunciation empty_object (JStr "chat") (JStr "French")
    (JStr "AAAA") (JStr "audio/webm") empty_world
  = (Returned (JObj []), set_clock 250 (count_call empty_world)).
Proof.
  split; [reflexivity|]. split; [reflexivity|]. split; [reflexivity|].
  apply (proj1 (proj2 (@handleAssessPronunciation_unvalidated empty_object
                         (JStr "chat") (JStr "French") (JStr "AAAA") (JStr "audio/webm")
                         "chat" "French"
                         empty_world {| text := Some "{}"; candidates := None |}
                         eq_refl eq_refl eq_refl)) "{}" (JObj []));
    reflexivity.
Defined.

(** C2 as stated fails for a response that is an object without fields: the
    handler returns it, although it has neither [score] nor [feedback]. *)
Lemma handleAssessPronunciation_returns_any_shape :
  @handleAssessPronunciation empty_object (JStr "chat") (JStr "French")
    (JStr "AAAA") (JStr "audio/webm") empty_world
  = (Returned (JObj []), set_clock 250 (count_call empty_world)) /\
  has_score_and_feedback (JObj []) = false.
Proof. split; [vm_compute; reflexivity | reflexivity]. Qed.

(** ** Colliding keys *)

Lemma getCache_truthy (key : string) (w w1 : World) (v : JValue) :
  getCache key w = (Returned v, w1) ->
  truthy v = true ->
  w1 = w /\ exists entry, fresh_entry key entry w /\ data entry = v.
Proof.
  unfold getCache. intros Hget Htruthy.
  destruct (cache w !! key) as [entry|] eqn:Hlookup.
  - destruct (clock w - timestamp entry <? CACHE_TTL_MS) eqn:Hfresh.
    + injection Hget as <- <-. split; [reflexivity|].
      exists entry. repeat split; [assumption | now apply Z.ltb_lt].
    + injection Hget as <- _. discriminate.
  - injection Hget as <- _. discriminate.
Qed.

Lemma getCache_returns (key : string) (w : World) :
  exists v w1, getCache key w = (Returned v, w1).
Proof.
  unfold getCache. destruct (cache w !! key) as [entry|]; [|eauto].
  destruct (clock w - timestamp entry <? CACHE_TTL_MS); eauto.
Qed.

Lemma withRetry_loop_returned `{Env} {T : Type} (apiCall : M T) (maxRetries : Z) (r : T)
  (w' : World) (n : nat) :
  forall attempt delay w,
    Z.to_nat (maxRetries - attempt) = n ->
    withRetry_loop apiCall maxRetries attempt delay w = (Returned r, w') ->
    exists w0, apiCall w0 = (Returned r, w').
Proof.
  induction n as [|n IH]; intros attempt delay w Hn Hrun.
  - rewrite withRetry_loop_skipped in Hrun by lia. discriminate.
  - rewrite withRetry_loop_step in Hrun.
    destruct (attempt <? maxRetries); [|discriminate].
    unfold try_catch in Hrun.
    destruct (apiCall w) as [[a|e] w1] eqn:Hcall.
    + injection Hrun as <- <-. now exists w.
    + destruct (isRetryable e && (attempt + 1 <? maxRetries)).
      * unfold bind, console_log, sleep in Hrun. eapply IH; [|exact Hrun]. lia.
      * destruct (isRetryable e); discriminate.
Qed.

Lemma generateWords_call_truthy `{Env} (topic language : string) (w w' : World)
  (r : JValue) :
  generateWords_call topic language w = (Returned r, w') -> truthy r = true.
Proof.
  unfold generateWords_call, bind. intros Hrun.
  destruct (generateContent _ w) as [[response|?] w1]; [|discriminate].
  destruct (text_trim response w1) as [[jsonText|?] w2]; [|discriminate].
  destruct (parse jsonText w2) as [[parsed|?] w3]; [|discriminate].
  destruct (js_get parsed "words" w3) as [[field|?] w4]; [|discriminate].
  destruct (slice_0_10 _ w4) as [[words|?] w5]; [|discriminate].
  destruct words as [| | | | |[|item items]|]; simpl in Hrun; try discriminate.
  now injection Hrun as <- _.
Qed.

Lemma handleGenerateWords_cached `{Env} (topic language : string) (w w1 : World)
  (r : JValue) :
  handleGenerateWords (JStr topic) (JStr language) w = (Returned r, w1) ->
  truthy r = true /\
  exists entry, fresh_entry (words_cacheKey topic language) entry w1 /\ data entry = r.
Proof.
  unfold handleGenerateWords. do 3 run_step. intros Hrun.
  destruct (getCache_returns (words_cacheKey topic language) w) as (v & w0 & Hget).
  rewrite Hget in Hrun.
  destruct (truthy v) eqn:Htruthy.
  - injection Hrun as <- <-.
    destruct (getCache_truthy _ _ _ _ Hget Htruthy) as [-> Hentry]. now split.
  - unfold bind at 1 in Hrun.
    destruct (withRetry _ 3 1000 w0) as [[result|?] w2] eqn:Hretry; [|discriminate].
    injection Hrun as <- <-.
    apply withRetry_loop_returned with (n := Z.to_nat (3 - 0)) in Hretry as [wa Hcall];
      [|reflexivity].
    split; [exact (generateWords_call_truthy _ _ _ _ _ Hcall)|].
    exists {| timestamp := clock w2; data := result |}.
    split; [|reflexivity]. split; simpl; [apply lookup_insert_eq|].
    rewrite Z.sub_diag. reflexivity.
Qed.

(** C10. The topic "a:b" with the language "c" and the topic "a" with the
    language "b:c" are different inputs with the same cache key; whenever
    [handleGenerateWords] returns a result for the first pair, the cache
    then holds that result under the key, and a call for the second pair at
    any time before the entry expires returns it, without calling the
    provider or changing anything. *)
Theorem words_cacheKey_collision :
  ("a:b", "c") <> ("a", "b:c") /\
  words_cacheKey "a:b" "c" = words_cacheKey "a" "b:c" /\
  forall (env : Env) (w w1 : World) (r : JValue),
    handleGenerateWords (JStr "a:b") (JStr "c") w = (Returned r, w1) ->
    exists entry,
      cache w1 !! words_cacheKey "a:b" "c" = Some entry /\
      data entry = r /\
      clock w1 - timestamp entry < CACHE_TTL_MS /\
      forall t, t - timestamp entry < CACHE_TTL_MS ->
        handleGenerateWords (JStr "a") (JStr "b:c") (set_clock t w1)
        = (Returned r, set_clock t w1).
Proof.
  split; [discriminate|]. split; [reflexivity|].
  intros env w w1 r Hrun.
  destruct (handleGenerateWords_cached _ _ _ _ _ Hrun)
    as (Htruthy & entry & [Hlookup Hfresh] & Hdata).
  exists entry. repeat split; try assumption.
  intros t Ht. subst r.
  apply handleGenerateWords_hit; [|assumption].
  split; [exact Hlookup | exact Ht].
Qed.

Lemma words_cacheKey_collision_witness :
  exists w1,
    @handleGenerateWords three_words (JStr "a:b") (JStr "c") empty_world
    = (Returned (JArr [JStr "pain"; JStr "fromage"; JStr "vin"]), w1) /\
    exists entry,
      cache w1 !! words_cacheKey "a:b" "c" = Some entry /\
      data entry = JArr [JStr "pain"; JStr "fromage"; JStr "vin"] /\
      clock w1 - timestamp entry < CACHE_TTL_MS /\
      forall t, t - timestamp entry < CACHE_TTL_MS ->
        @handleGenerateWords three_words (JStr "a") (JStr "b:c") (set_clock t w1)
        = (Returned (JArr [JStr "pain"; JStr "fromage"; JStr "vin"]), set_clock t w1).
Proof.
  eexists. split; [vm_compute; reflexivity|].
  apply (proj2 (proj2 words_cacheKey_collision) three_words empty_world).
  vm_compute. reflexivity.
Defined.

(** * Further properties *)

(** ** The result cache, continued *)

(** X1. [setCache] and [getCache] on one key leave the entry of every other
    key as it was, also when [getCache] drops an expired entry. *)
Theorem cache_operations_frame (key key' : string) (v : JValue) (w : World) :
  key <> key' ->
  cache (snd (setCache key v w)) !! key' = cache w !! key' /\
  cache (snd (getCache key w)) !! key' = cache w !! key'.
Proof.
  intros Hne. split.
  - simpl. now apply lookup_insert_ne.
  - unfold getCache. destruct (cache w !! key) as [entry|].
    + destruct (clock w - timestamp entry <? CACHE_TTL_MS); simpl;
        [reflexivity | now apply lookup_delete_ne].
    + simpl. now apply lookup_delete_ne.
Qed.

Lemma cache_operations_frame_witness :
  let w := set_clock 3600000 (snd (setCache "words:food:french" (JArr [JStr "pain"])
                                     (snd (setCache "speech:pain:kore" (JStr "UklGRg")
                                             empty_world)))) in
  cache (snd (setCache "words:food:french" JNull w)) !! "speech:pain:kore"
  = cache w !! "speech:pain:kore" /\
  cache (snd (getCache "words:food:french" w)) !! "speech:pain:kore"
  = cache w !! "speech:pain:kore".
Proof.
  apply (cache_operations_frame "words:food:french" "speech:pain:kore"). discriminate.
Defined.

(** X2. A second [setCache] of a key replaces the first altogether: the
    cache is the one a single [setCache] of the second value at the second
    time would have produced, and [getCache] serves the second value for
    one TTL from the second write, however old the first one is. *)
Theorem setCache_overwrites (key : string) (v1 v2 : JValue) (w : World) (t_set t_get : Z) :
  t_get - t_set < CACHE_TTL_MS ->
  let first := set_clock t_set (snd (setCache key v1 w)) in
  let second := set_clock t_get (snd (setCache key v2 first)) in
  cache second = <[key := {| timestamp := t_set; data := v2 |}]> (cache w) /\
  getCache key second = (Returned v2, second).
Proof.
  intros Hfresh first second. split.
  - simpl. apply insert_insert_eq.
  - apply (getCache_fresh key {| timestamp := t_set; data := v2 |}).
    split; simpl; [apply lookup_insert_eq | exact Hfresh].
Qed.

Lemma setCache_overwrites_witness :
  let first := set_clock 7200000 (snd (setCache "instructions:french" (JStr "un") empty_world)) in
  let second := set_clock 7200001 (snd (setCache "instructions:french" (JStr "deux") first)) in
  cache second
  = <["instructions:french" := {| timestamp := 7200000; data := JStr "deux" |}]>
      (cache empty_world) /\
  getCache "instructions:french" second = (Returned (JStr "deux"), second).
Proof.
  apply (setCache_overwrites "instructions:french" (JStr "un") (JStr "deux")
           empty_world 7200000 7200001).
  reflexivity.
Defined.

(** X3. [getCache] of a key that has no entry returns [null] and changes
    nothing: deleting the missing key leaves the cache as it was. *)
Theorem getCache_absent (key : string) (w : World) :
  cache w !! key = None -> getCache key w = (Returned JNull, w).
Proof.
  intros Hnone. unfold getCache. rewrite Hnone.
  rewrite (delete_id _ _ Hnone). now rewrite set_cache_same.
Qed.

Lemma getCache_absent_witness :
  getCache "words:food:french" empty_world = (Returned JNull, empty_world).
Proof.
  apply (getCache_absent "words:food:french" empty_world). reflexivity.
Defined.

(** X4. [getCache] never adds an entry and never alters one: every entry of
    the cache it leaves was an entry of the cache it found. *)
Theorem getCache_adds_nothing (key : string) (w : World) :
  cache (snd (getCache key w)) ⊆ cache w.
Proof.
  unfold getCache. destruct (cache w !! key) as [entry|].
  - destruct (clock w - timestamp entry <? CACHE_TTL_MS); simpl;
      [reflexivity | apply delete_subseteq].
  - simpl. apply delete_subseteq.
Qed.

(** ** The retry executor, continued *)

Lemma withRetry_loop_calls_bound `{Env} {T : Type} (apiCall : M T) (maxRetries : Z)
  (Hcounts : counts_calls apiCall) (n : nat) :
  forall attempt delay w,
    Z.to_nat (maxRetries - attempt) = n ->
    (ai_calls w <= ai_calls (snd (withRetry_loop apiCall maxRetries attempt delay w))
     <= ai_calls w + n)%nat /\
    (0 < n -> ai_calls w < ai_calls (snd (withRetry_loop apiCall maxRetries attempt delay w)))%nat.
Proof.
  induction n as [|n IH]; intros attempt delay w Hn.
  - rewrite withRetry_loop_skipped by lia. simpl. lia.
  - rewrite withRetry_loop_step.
    assert (Hlt : (attempt <? maxRetries) = true) by (apply Z.ltb_lt; lia).
    rewrite Hlt. unfold try_catch.
    pose proof (Hcounts w) as Hcall.
    destruct (apiCall w) as [[a|e] w1]; simpl in Hcall; [simpl; lia|].
    destruct (isRetryable e && (attempt + 1 <? maxRetries)) eqn:Hretry.
    + apply andb_true_iff in Hretry as [_ Hnext]. apply Z.ltb_lt in Hnext.
      unfold bind, console_log, sleep. simpl.
      match goal with
      | |- context [withRetry_loop _ _ _ _ ?w2] =>
          destruct (IH (attempt + 1) (delay * 2) w2) as [Hle _]; [lia|];
          simpl in Hle
      end.
      lia.
    + destruct (isRetryable e); simpl; lia.
Qed.

(** X5. Whatever the operation does, [withRetry] runs it at most
    [maxRetries] times, and at least once when the bound is 1 or more (the
    runs are read off the call counter, for an operation that registers one
    call per run). *)
Theorem withRetry_attempts_bounded `{Env} {T : Type} (apiCall : M T)
  (maxRetries initialDelay : Z) (w : World) :
  counts_calls apiCall ->
  (ai_calls (snd (withRetry apiCall maxRetries initialDelay w))
   <= ai_calls w + Z.to_nat maxRetries)%nat /\
  (1 <= maxRetries ->
   (ai_calls w < ai_calls (snd (withRetry apiCall maxRetries initialDelay w)))%nat).
Proof.
  intros Hcounts.
  destruct (withRetry_loop_calls_bound apiCall maxRetries Hcounts
              (Z.to_nat (maxRetries - 0)) 0 initialDelay w eq_refl) as [Hle Hgt].
  rewrite Z.sub_0_r in *. split; [apply Hle|]. intros Hpos. apply Hgt. lia.
Qed.

Lemma ping_counts_calls `{Env} : counts_calls ping.
Proof.
  intros w. unfold ping, generateContent.
  now destruct (settled (provider (ai_calls w) (instructions_request "French"))).
Qed.

Lemma withRetry_attempts_bounded_witness :
  (ai_calls (snd (@withRetry overloaded _ (@ping overloaded) 3 1000 empty_world))
   <= ai_calls empty_world + Z.to_nat 3)%nat /\
  (1 <= 3 ->
   (ai_calls empty_world
    < ai_calls (snd (@withRetry overloaded _ (@ping overloaded) 3 1000 empty_world)))%nat).
Proof.
  apply (@withRetry_attempts_bounded overloaded _ (@ping overloaded) 3 1000 empty_world).
  exact (@ping_counts_calls overloaded).
Defined.

Lemma withRetry_loop_provenance `{Env} {T : Type} (apiCall : M T) (maxRetries : Z)
  (n : nat) :
  forall attempt delay w,
    Z.to_nat (maxRetries - attempt) = n ->
    match withRetry_loop apiCall maxRetries attempt delay w with
    | (Returned r, w') => exists w0, apiCall w0 = (Returned r, w')
    | (Thrown e, w') =>
        (maxRetries <= attempt /\ e = fallthrough_error /\ w' = w)
        \/ (e = busy_error /\
            exists e0 w0 w1, apiCall w0 = (Thrown e0, w1) /\ isRetryable e0 = true)
        \/ (isRetryable e = false /\ exists w0, apiCall w0 = (Thrown e, w'))
    end.
Proof.
  induction n as [|n IH]; intros attempt delay w Hn.
  - rewrite withRetry_loop_skipped by lia. left. repeat split. lia.
  - rewrite withRetry_loop_step.
    assert (Hlt : (attempt <? maxRetries) = true) by (apply Z.ltb_lt; lia).
    rewrite Hlt. unfold try_catch.
    destruct (apiCall w) as [[a|e] w1] eqn:Hcall; [now exists w|].
    destruct (isRetryable e) eqn:Hretryable; simpl.
    + destruct (attempt + 1 <? maxRetries) eqn:Hnext.
      * apply Z.ltb_lt in Hnext.
        unfold bind at 1. simpl. unfold bind at 1. simpl.
        match goal with
        | |- context [withRetry_loop _ _ _ _ ?w2] =>
            specialize (IH (attempt + 1) (delay * 2) w2 ltac:(lia));
            destruct (withRetry_loop apiCall maxRetries (attempt + 1) (delay * 2) w2)
              as [[r|e'] w']
        end; [exact IH|].
        destruct IH as [(Hge & _) | IH]; [lia | now right].
      * right. left. split; [reflexivity|]. now exists e, w, w1.
    + right. right. split; [exact Hretryable|]. now exists w.
Qed.

(** X6. What [withRetry] hands back comes from the operation or from the
    policy, and nothing else: a returned value is one the operation
    returned; a failure is the error that follows a loop never entered, or
    the busy error after a retryable failure of the operation, or a failure
    of the operation that is not retryable.  A retryable failure of the
    operation never reaches the caller as it is. *)
Theorem withRetry_outcome_provenance `{Env} {T : Type} (apiCall : M T)
  (maxRetries initialDelay : Z) (w : World) :
  match withRetry apiCall maxRetries initialDelay w with
  | (Returned r, w') => exists w0, apiCall w0 = (Returned r, w')
  | (Thrown e, w') =>
      (maxRetries <= 0 /\ e = fallthrough_error /\ w' = w)
      \/ (e = busy_error /\
          exists e0 w0 w1, apiCall w0 = (Thrown e0, w1) /\ isRetryable e0 = true)
      \/ (isRetryable e = false /\ exists w0, apiCall w0 = (Thrown e, w'))
  end.
Proof.
  exact (withRetry_loop_provenance apiCall maxRetries (Z.to_nat (maxRetries - 0))
           0 initialDelay w eq_refl).
Qed.

Lemma withRetry_loop_recovers `{Env} (request : GenerateContentParameters)
  (response : GenerateContentResponse) (maxRetries : Z) (k : nat) :
  forall attempt delay w,
    attempt + Z.of_nat k < maxRetries ->
    (forall i, (i < k)%nat -> fails_retryably request (ai_calls w + i)) ->
    settled (provider (ai_calls w + k) request) = inr response ->
    exists w',
      withRetry_loop (generateContent request) maxRetries attempt delay w
      = (Returned response, w') /\
      ai_calls w' = S (ai_calls w + k) /\
      cache w' = cache w /\
      length (console w') = (length (console w) + k)%nat.
Proof.
  induction k as [|k IH]; intros attempt delay w Hbound Hfail Hok.
  - rewrite Nat.add_0_r in Hok. eexists. split.
    + apply withRetry_loop_success; [lia|].
      unfold generateContent. rewrite Hok. reflexivity.
    + simpl. repeat split; lia.
  - destruct (Hfail 0%nat ltac:(lia)) as (e & Hcall & Hretryable).
    rewrite Nat.add_0_r in Hcall.
    rewrite withRetry_loop_step.
    assert (Hlt : (attempt <? maxRetries) = true) by (apply Z.ltb_lt; lia).
    assert (Hnext : (attempt + 1 <? maxRetries) = true) by (apply Z.ltb_lt; lia).
    rewrite Hlt. unfold try_catch, generateContent at 1. rewrite Hcall, Hretryable, Hnext.
    unfold bind, console_log, sleep. simpl.
    match goal with
    | |- context [withRetry_loop _ _ _ _ ?w2] =>
        destruct (IH (attempt + 1) (delay * 2) w2) as (w' & Hrun & Hcalls & Hcache & Hlog)
    end.
    + lia.
    + intros i Hi. simpl. replace (S (ai_calls w + i)) with (ai_calls w + S i)%nat by lia.
      apply Hfail. lia.
    + simpl. now replace (S (ai_calls w + k)) with (ai_calls w + S k)%nat by lia.
    + exists w'. split; [exact Hrun|]. simpl in Hcalls, Hcache, Hlog.
      rewrite length_app in Hlog. simpl in Hlog.
      repeat split; [lia | exact Hcache | lia].
Qed.

(** X7. When the first [k] calls of the provider reject with retryable
    failures and the next one resolves, with [k] below the bound,
    [withRetry] over that call returns the response after exactly [k + 1]
    calls and [k] warnings, the cache untouched. *)
Theorem withRetry_recovers `{Env} (request : GenerateContentParameters)
  (response : GenerateContentResponse) (maxRetries initialDelay : Z) (k : nat)
  (w : World) :
  Z.of_nat k < maxRetries ->
  (forall i, (i < k)%nat -> fails_retryably request (ai_calls w + i)) ->
  settled (provider (ai_calls w + k) request) = inr response ->
  exists w',
    withRetry (generateContent request) maxRetries initialDelay w
    = (Returned response, w') /\
    ai_calls w' = S (ai_calls w + k) /\
    cache w' = cache w /\
    length (console w') = (length (console w) + k)%nat.
Proof.
  intros Hbound Hfail Hok.
  now apply (withRetry_loop_recovers request response maxRetries k 0 initialDelay w).
Qed.

Lemma withRetry_loop_backoff `{Env} (request : GenerateContentParameters)
  (maxRetries : Z) (Hfail : forall n, fails_retryably request n) (n : nat) :
  forall attempt delay w,
    Z.to_nat (maxRetries - attempt) = S n ->
    exists e w',
      withRetry_loop (generateContent request) maxRetries attempt delay w
      = (Thrown busy_error, w') /\
      settled (provider (ai_calls w + n) request) = inl e /\
      console w'
      = (console w
         ++ List.map (fun i => warn_retrying (attempt + Z.of_nat i + 1) maxRetries
                                 (delay * 2 ^ Z.of_nat i)) (seq 0 n)
         ++ [error_exhausted maxRetries e])%list.
Proof.
  induction n as [|n IH]; intros attempt delay w Hn.
  - destruct (Hfail (ai_calls w)) as (e & Hcall & Hretryable).
    rewrite withRetry_loop_step.
    assert (Hlt : (attempt <? maxRetries) = true) by (apply Z.ltb_lt; lia).
    assert (Hnext : (attempt + 1 <? maxRetries) = false) by (apply Z.ltb_ge; lia).
    rewrite Hlt. unfold try_catch, generateContent at 1.
    rewrite Hcall, Hretryable, Hnext. simpl.
    exists e. eexists. split; [reflexivity|].
    rewrite Nat.add_0_r. split; [exact Hcall | reflexivity].
  - destruct (Hfail (ai_calls w)) as (e & Hcall & Hretryable).
    rewrite withRetry_loop_step.
    assert (Hlt : (attempt <? maxRetries) = true) by (apply Z.ltb_lt; lia).
    assert (Hnext : (attempt + 1 <? maxRetries) = true) by (apply Z.ltb_lt; lia).
    rewrite Hlt. unfold try_catch, generateContent at 1.
    rewrite Hcall, Hretryable, Hnext.
    unfold bind, console_log, sleep. simpl.
    match goal with
    | |- context [withRetry_loop _ _ _ _ ?w2] =>
        destruct (IH (attempt + 1) (delay * 2) w2) as (e' & w' & Hrun & Hlast & Hlog);
          [lia|]
    end.
    exists e', w'. split; [exact Hrun|]. simpl in Hlast, Hlog.
    split; [now replace (ai_calls w + S n)%nat with (S (ai_calls w + n)) by lia|].
    rewrite Hlog, <- app_assoc. f_equal. simpl. f_equal.
    + f_equal; lia.
    + f_equal. rewrite <- seq_shift, map_map. apply map_ext. intros i.
      f_equal; [lia|].
      rewrite Nat2Z.inj_succ, Z.pow_succ_r by lia. lia.
Qed.

(** X8. When the provider rejects every call with a retryable failure,
    [withRetry] over that call with a bound of at least 1 ends with the busy
    error, and what it has written to the console is exactly one warning
    before each retry, the first with [initialDelay] and each next one with
    twice the delay of the one before, then the report of the last failure.
    This is for counters and delays that the language's numbers hold
    exactly: a bound below 2^53, and an integer [initialDelay] below 2^53 in
    size whose doublings stay below 2^1024. *)
Theorem withRetry_backoff_schedule `{Env} (request : GenerateContentParameters)
  (maxRetries initialDelay : Z) (w : World) :
  (forall n, fails_retryably request n) ->
  1 <= maxRetries < 2 ^ 53 ->
  Z.abs initialDelay < 2 ^ 53 ->
  Z.abs initialDelay * 2 ^ (maxRetries - 1) < 2 ^ 1024 ->
  exists e w',
    withRetry (generateContent request) maxRetries initialDelay w
    = (Thrown busy_error, w') /\
    settled (provider (ai_calls w + Z.to_nat (maxRetries - 1)) request) = inl e /\
    console w'
    = (console w ++ backoff_warnings maxRetries initialDelay
       ++ [error_exhausted maxRetries e])%list.
Proof.
  intros Hfail [Hpos _] _ _.
  destruct (withRetry_loop_backoff request maxRetries Hfail (Z.to_nat (maxRetries - 1))
              0 initialDelay w) as (e & w' & Hrun & Hlast & Hlog); [lia|].
  exists e, w'. split; [exact Hrun|]. split; [exact Hlast|].
  rewrite Hlog. reflexivity.
Qed.

Lemma withRetry_recovers_witness :
  exists w',
    @withRetry (flaky 2 "{}" (JObj [])) _
      (@generateContent (flaky 2 "{}" (JObj [])) (instructions_request "French"))
      3 1000 empty_world
    = (Returned {| text := Some "{}"; candidates := None |}, w') /\
    ai_calls w' = S (ai_calls empty_world + 2) /\
    cache w' = cache empty_world /\
    length (console w') = (length (console empty_world) + 2)%nat.
Proof.
  apply (@withRetry_recovers (flaky 2 "{}" (JObj [])) (instructions_request "French")
           {| text := Some "{}"; candidates := None |} 3 1000 2 empty_world).
  - lia.
  - intros i Hi. eexists. destruct i as [|[|i]]; [split; reflexivity .. | lia].
  - reflexivity.
Defined.

Lemma withRetry_backoff_schedule_witness :
  exists e w',
    @withRetry overloaded _ (@generateContent overloaded (instructions_request "French"))
      3 1000 empty_world
    = (Thrown busy_error, w') /\
    settled (@provider overloaded (ai_calls empty_world + Z.to_nat (3 - 1))
               (instructions_request "French")) = inl e /\
    console w'
    = (console empty_world ++ [warn_retrying 1 3 1000; warn_retrying 2 3 2000]
       ++ [error_exhausted 3 e])%list.
Proof.
  apply (@withRetry_backoff_schedule overloaded (instructions_request "French")
           3 1000 empty_world).
  - intros n. eexists. split; reflexivity.
  - split; [lia | vm_compute; reflexivity].
  - vm_compute. reflexivity.
  - vm_compute. reflexivity.
Defined.

(** ** The handlers and the cache *)

Lemma oblivious_cache_same {A : Type} (m : M A) (w : World) :
  cache_oblivious m -> cache (snd (m w)) = cache w.
Proof.
  intros Hobl. pose proof (Hobl (cache w) w) as Hsame.
  rewrite set_cache_same in Hsame. now rewrite Hsame at 1.
Qed.

Lemma oblivious_js_get (v : JValue) (name : string) : cache_oblivious (js_get v name).
Proof. destruct v; first [apply oblivious_ret | apply oblivious_throw]. Qed.

Lemma oblivious_slice_0_10 (v : JValue) : cache_oblivious (slice_0_10 v).
Proof. destruct v; first [apply oblivious_ret | apply oblivious_throw]. Qed.

Lemma oblivious_generateWords_call `{Env} (topic language : string) :
  cache_oblivious (generateWords_call topic language).
Proof.
  unfold generateWords_call.
  apply oblivious_bind; [apply oblivious_generateContent|]. intros response.
  apply oblivious_bind; [apply oblivious_text_trim|]. intros jsonText.
  apply oblivious_bind; [apply oblivious_parse|]. intros parsed.
  apply oblivious_bind; [apply oblivious_js_get|]. intros field.
  apply oblivious_bind; [apply oblivious_slice_0_10|]. intros words.
  destruct (negb (Array_isArray words) || length_is_0 words);
    [apply oblivious_throw | apply oblivious_ret].
Qed.

Lemma oblivious_generateSpeech_call `{Env} (text voice : string) :
  cache_oblivious (generateSpeech_call text voice).
Proof.
  unfold generateSpeech_call.
  apply oblivious_bind; [apply oblivious_generateContent|]. intros response.
  destruct (negb (truthy (from_option JStr JUndefined (first_inlineData response))));
    [apply oblivious_throw | apply oblivious_ret].
Qed.

Lemma oblivious_translateInstructions_call `{Env} (languageName : string) :
  cache_oblivious (translateInstructions_call languageName).
Proof.
  unfold translateInstructions_call.
  apply oblivious_bind; [apply oblivious_generateContent|]. intros response.
  apply oblivious_ret.
Qed.

Lemma getCache_shape (key : string) (w : World) :
  exists v c,
    getCache key w = (Returned v, set_cache c w) /\
    (truthy v = true -> c = cache w) /\
    c ⊆ cache w /\
    forall entry, <[key := entry]> c = <[key := entry]> (cache w).
Proof.
  unfold getCache. destruct (cache w !! key) as [entry|].
  - destruct (clock w - timestamp entry <? CACHE_TTL_MS).
    + exists (data entry), (cache w). rewrite set_cache_same.
      split; [reflexivity|]. split; [reflexivity|]. split; reflexivity.
    + exists JNull, (delete key (cache w)). repeat split.
      * discriminate.
      * apply delete_subseteq.
      * intros e. apply insert_delete_eq.
  - exists JNull, (delete key (cache w)). repeat split.
    + discriminate.
    + apply delete_subseteq.
    + intros e. apply insert_delete_eq.
Qed.

Lemma through_cache_effect `{Env} (key : string) (apiCall : M JValue) (w : World) :
  cache_oblivious apiCall ->
  match through_cache key apiCall w with
  | (Thrown _, w') => cache w' ⊆ cache w
  | (Returned r, w') =>
      w' = w \/ cache w' = <[key := {| timestamp := clock w'; data := r |}]> (cache w)
  end.
Proof.
  intros Hobl. unfold through_cache, bind at 1.
  destruct (getCache_shape key w) as (v & c & Hget & Hhit & Hsub & Hinsert).
  rewrite Hget. destruct (truthy v) eqn:Htruthy.
  - left. rewrite (Hhit eq_refl). apply set_cache_same.
  - unfold bind at 1.
    pose proof (oblivious_cache_same _ (set_cache c w)
                  (oblivious_withRetry apiCall 3 1000 Hobl)) as Hcache.
    destruct (withRetry apiCall 3 1000 (set_cache c w)) as [[result|e] w1];
      simpl in Hcache.
    + right. simpl. rewrite Hcache. apply Hinsert.
    + simpl. now rewrite Hcache.
Qed.

(** X9. The cacheable handlers write to the cache only what they return: a
    call that throws leaves no entry that was not there before; a call that
    returns either changed nothing at all (a cache hit, or the base-language
    instructions) or stored just the value it returns, under the key of its
    inputs, stamped with the time at which the call ended. *)
Theorem cacheable_handlers_cache_effect `{Env} (a b : string) (w : World) :
  match handleGenerateWords (JStr a) (JStr b) w with
  | (Thrown _, w') => cache w' ⊆ cache w
  | (Returned r, w') =>
      w' = w \/
      cache w' = <[words_cacheKey a b := {| timestamp := clock w'; data := r |}]> (cache w)
  end /\
  match handleGenerateSpeech (JStr a) (JStr b) w with
  | (Thrown _, w') => cache w' ⊆ cache w
  | (Returned r, w') =>
      w' = w \/
      cache w' = <[speech_cacheKey a b := {| timestamp := clock w'; data := r |}]> (cache w)
  end /\
  match handleGetTranslatedInstructions (JStr a) w with
  | (Thrown _, w') => cache w' ⊆ cache w
  | (Returned r, w') =>
      w' = w \/
      cache w' = <[instructions_cacheKey a := {| timestamp := clock w'; data := r |}]> (cache w)
  end.
Proof.
  split; [|split].
  - exact (through_cache_effect (words_cacheKey a b) (generateWords_call a b) w
             (oblivious_generateWords_call a b)).
  - exact (through_cache_effect (speech_cacheKey a b) (generateSpeech_call a b) w
             (oblivious_generateSpeech_call a b)).
  - unfold handleGetTranslatedInstructions. run_step.
    destruct (String.eqb (toLowerCase a) "english"); [now left|].
    exact (through_cache_effect (instructions_cacheKey a) (translateInstructions_call a) w
             (oblivious_translateInstructions_call a)).
Qed.

Lemma through_cache_miss_returned `{Env} (key : string) (apiCall : M JValue)
  (w w' : World) (r : JValue) :
  cache_oblivious apiCall ->
  cache_miss key w ->
  apiCall w = (Returned r, w') ->
  through_cache key apiCall w
  = (Returned r,
     set_cache (<[key := {| timestamp := clock w'; data := r |}]> (cache w)) w').
Proof.
  intros Hobl Hmiss Hcall. unfold through_cache, bind at 1.
  destruct (getCache_shape key w) as (v & c & Hget & _ & _ & Hinsert).
  destruct (getCache_miss key w Hmiss) as (v' & w1 & Hget' & Hfalsy & _).
  rewrite Hget in Hget'. injection Hget' as <- _.
  rewrite Hget, Hfalsy. unfold bind at 1, withRetry.
  rewrite (withRetry_loop_success apiCall 3 0 1000 (set_cache c w) (set_cache c w') r);
    [| lia | now rewrite Hobl, Hcall].
  unfold bind, setCache, ret. simpl. now rewrite Hinsert.
Qed.

Lemma through_cache_miss_fatal `{Env} (key : string) (apiCall : M JValue)
  (w w' : World) (e : JsError) :
  cache_oblivious apiCall ->
  cache_miss key w ->
  apiCall w = (Thrown e, w') ->
  isRetryable e = false ->
  exists c, c ⊆ cache w /\ through_cache key apiCall w = (Thrown e, set_cache c w').
Proof.
  intros Hobl Hmiss Hcall Hfatal. unfold through_cache, bind at 1.
  destruct (getCache_shape key w) as (v & c & Hget & _ & Hsub & _).
  destruct (getCache_miss key w Hmiss) as (v' & w1 & Hget' & Hfalsy & _).
  rewrite Hget in Hget'. injection Hget' as <- _.
  exists c. split; [exact Hsub|].
  rewrite Hget, Hfalsy. unfold bind at 1, withRetry.
  rewrite (withRetry_loop_fatal apiCall 3 0 1000 (set_cache c w) (set_cache c w') e);
    [reflexivity | lia | now rewrite Hobl, Hcall | exact Hfatal].
Qed.

Lemma generateWords_call_rejects `{Env} (topic language : string) (w : World)
  (response : GenerateContentResponse) (t : string) (fields : list (string * JValue)) :
  settled (provider (ai_calls w) (words_request topic language)) = inr response ->
  text response = Some t ->
  JSON_parse (trim t) = inr (JObj fields) ->
  (forall item items, default JUndefined (assoc "words" fields) <> JArr (item :: items)) ->
  generateWords_call topic language w
  = (Thrown (if unusable_words (default JUndefined (assoc "words" fields))
             then Error "Invalid response format from API."
             else TypeError "(intermediate value).slice is not a function"),
     set_clock (clock w + elapsed (provider (ai_calls w) (words_request topic language)))
       (count_call w)).
Proof.
  intros Hreply Htext Hparse Hfield.
  unfold generateWords_call, bind, generateContent.
  rewrite Hreply. unfold text_trim. rewrite Htext. unfold ret at 1.
  unfold parse. rewrite Hparse. unfold ret at 1.
  unfold js_get, ret at 1.
  destruct (default JUndefined (assoc "words" fields))
    as [| |[]|x|s|[|item items]|fs]; try reflexivity.
  - unfold unusable_words, js_or. destruct (truthy (JNum x)); reflexivity.
  - destruct s; reflexivity.
  - now contradiction (Hfield item items).
Qed.

(** X10. On a cache miss, a response that parses to an object whose [words]
    is anything but a non-empty array makes [handleGenerateWords] throw
    after that one provider call, with nothing retried and nothing stored;
    the failure is "Invalid response format from API." when [words] is
    absent, falsy, an empty array or a string. *)
Theorem handleGenerateWords_rejects `{Env} (topic language : string) (w : World)
  (response : GenerateContentResponse) (t : string) (fields : list (string * JValue)) :
  cache_miss (words_cacheKey topic language) w ->
  settled (provider (ai_calls w) (words_request topic language)) = inr response ->
  text response = Some t ->
  JSON_parse (trim t) = inr (JObj fields) ->
  (forall item items, default JUndefined (assoc "words" fields) <> JArr (item :: items)) ->
  exists e w',
    handleGenerateWords (JStr topic) (JStr language) w = (Thrown e, w') /\
    (unusable_words (default JUndefined (assoc "words" fields)) = true ->
     e = Error "Invalid response format from API.") /\
    ai_calls w' = S (ai_calls w) /\
    cache w' ⊆ cache w.
Proof.
  intros Hmiss Hreply Htext Hparse Hfield.
  destruct (through_cache_miss_fatal (words_cacheKey topic language)
              (generateWords_call topic language) w _ _
              (oblivious_generateWords_call topic language) Hmiss
              (generateWords_call_rejects topic language w response t fields
                 Hreply Htext Hparse Hfield))
    as (c & Hsub & Hrun).
  - now destruct (unusable_words _).
  - eexists _, _. split; [exact Hrun|].
    split; [now intros ->|]. split; [reflexivity | exact Hsub].
Qed.

Lemma handleGenerateWords_rejects_witness :
  exists e w',
    @handleGenerateWords empty_object (JStr "Food") (JStr "French") empty_world
    = (Thrown e, w') /\
    (unusable_words (default JUndefined (assoc "words" [])) = true ->
     e = Error "Invalid response format from API.") /\
    ai_calls w' = S (ai_calls empty_world) /\
    cache w' ⊆ cache empty_world.
Proof.
  apply (@handleGenerateWords_rejects empty_object "Food" "French" empty_world
           {| text := Some "{}"; candidates := None |} "{}" []).
  - intros entry [Hlookup _]. vm_compute in Hlookup. discriminate.
  - reflexivity.
  - reflexivity.
  - reflexivity.
  - discriminate.
Defined.

(** ** Speech *)

Lemma generateSpeech_call_audio `{Env} (text voice : string) (w : World)
  (response : GenerateContentResponse) (audio : string) :
  settled (provider (ai_calls w) (speech_request text voice)) = inr response ->
  first_inlineData response = Some audio ->
  audio <> "" ->
  generateSpeech_call text voice w
  = (Returned (JStr audio),
     set_clock (clock w + elapsed (provider (ai_calls w) (speech_request text voice)))
       (count_call w)).
Proof.
  intros Hreply Haudio Hnonempty.
  unfold generateSpeech_call, bind, generateContent.
  rewrite Hreply, Haudio. simpl.
  destruct (String.eqb_spec audio ""); [contradiction | reflexivity].
Qed.

(** X11. On a cache miss, when the response carries a non-empty audio
    payload in the first part of its first candidate, [handleGenerateSpeech]
    returns it after one provider call; from then on, and for one TTL, a
    call for the same text and voice, or for any text and voice with the
    same cache key, is answered from the cache, with no provider call and no
    change to the world. *)
Theorem handleGenerateSpeech_caches `{Env} (text voice : string) (w : World)
  (response : GenerateContentResponse) (audio : string) :
  cache_miss (speech_cacheKey text voice) w ->
  settled (provider (ai_calls w) (speech_request text voice)) = inr response ->
  first_inlineData response = Some audio ->
  audio <> "" ->
  exists w',
    handleGenerateSpeech (JStr text) (JStr voice) w = (Returned (JStr audio), w') /\
    ai_calls w' = S (ai_calls w) /\
    forall (text' voice' : string) (t : Z),
      speech_cacheKey text' voice' = speech_cacheKey text voice ->
      t - clock w' < CACHE_TTL_MS ->
      handleGenerateSpeech (JStr text') (JStr voice') (set_clock t w')
      = (Returned (JStr audio), set_clock t w').
Proof.
  intros Hmiss Hreply Haudio Hnonempty.
  pose proof (through_cache_miss_returned (speech_cacheKey text voice)
                (generateSpeech_call text voice) w _ _
                (oblivious_generateSpeech_call text voice) Hmiss
                (generateSpeech_call_audio text voice w response audio
                   Hreply Haudio Hnonempty)) as Hrun.
  eexists. split; [exact Hrun|]. split; [reflexivity|].
  intros text' voice' t Hkey Hfresh.
  apply (handleGenerateSpeech_hit text' voice'
           {| timestamp := clock w + elapsed (provider (ai_calls w)
                                                (speech_request text voice));
              data := JStr audio |}).
  - split; [|exact Hfresh]. rewrite Hkey. simpl. apply lookup_insert_eq.
  - simpl. now destruct (String.eqb_spec audio "").
Qed.

Lemma handleGenerateSpeech_caches_witness :
  exists w',
    @handleGenerateSpeech (speaking "UklGRg") (JStr "Pain") (JStr "Kore") empty_world
    = (Returned (JStr "UklGRg"), w') /\
    ai_calls w' = S (ai_calls empty_world) /\
    forall (text' voice' : string) (t : Z),
      speech_cacheKey text' voice' = speech_cacheKey "Pain" "Kore" ->
      t - clock w' < CACHE_TTL_MS ->
      @handleGenerateSpeech (speaking "UklGRg") (JStr text') (JStr voice') (set_clock t w')
      = (Returned (JStr "UklGRg"), set_clock t w').
Proof.
  apply (@handleGenerateSpeech_caches (speaking "UklGRg") "Pain" "Kore" empty_world
           (audio_response "UklGRg") "UklGRg").
  - intros entry [Hlookup _]. vm_compute in Hlookup. discriminate.
  - reflexivity.
  - reflexivity.
  - discriminate.
Defined.

(** X12. On a cache miss, a response without an audio payload (a link of
    the chain down to the first inline data is missing, or the payload is
    the empty string) makes [handleGenerateSpeech] throw "No audio data
    received from TTS API" after that one provider call, with nothing
    retried and nothing stored. *)
Theorem handleGenerateSpeech_no_audio `{Env} (text voice : string) (w : World)
  (response : GenerateContentResponse) :
  cache_miss (speech_cacheKey text voice) w ->
  settled (provider (ai_calls w) (speech_request text voice)) = inr response ->
  first_inlineData response = None \/ first_inlineData response = Some "" ->
  exists w',
    handleGenerateSpeech (JStr text) (JStr voice) w
    = (Thrown (Error "No audio data received from TTS API"), w') /\
    ai_calls w' = S (ai_calls w) /\
    cache w' ⊆ cache w.
Proof.
  intros Hmiss Hreply Haudio.
  destruct (through_cache_miss_fatal (speech_cacheKey text voice)
              (generateSpeech_call text voice) w
              (set_clock (clock w + elapsed (provider (ai_calls w) (speech_request text voice)))
                 (count_call w))
              (Error "No audio data received from TTS API")
              (oblivious_generateSpeech_call text voice) Hmiss)
    as (c & Hsub & Hrun).
  - unfold generateSpeech_call, bind, generateContent. rewrite Hreply.
    now destruct Haudio as [-> | ->].
  - reflexivity.
  - eexists. split; [exact Hrun|]. split; [reflexivity | exact Hsub].
Qed.

Lemma handleGenerateSpeech_no_audio_witness :
  exists w',
    @handleGenerateSpeech silent (JStr "Pain") (JStr "Kore") empty_world
    = (Thrown (Error "No audio data received from TTS API"), w') /\
    ai_calls w' = S (ai_calls empty_world) /\
    cache w' ⊆ cache empty_world.
Proof.
  apply (@handleGenerateSpeech_no_audio silent "Pain" "Kore" empty_world
           {| text := None; candidates := None |}).
  - intros entry [Hlookup _]. vm_compute in Hlookup. discriminate.
  - reflexivity.
  - left. reflexivity.
Defined.

(** ** Instructions *)

(** X13. For a language name that is "english" in any letter case,
    [handleGetTranslatedInstructions] returns the base instructions and
    leaves the world as it was: the provider is not called and the cache is
    neither read nor written. *)
Theorem handleGetTranslatedInstructions_base_language `{Env} (languageName : string)
  (w : World) :
  differ_only_in_case languageName "english" = true ->
  handleGetTranslatedInstructions (JStr languageName) w
  = (Returned (JStr BASE_INSTRUCTIONS), w).
Proof.
  intros Hcase. apply differ_only_in_case_toLowerCase in Hcase.
  apply handleGetTranslatedInstructions_english. now rewrite Hcase.
Qed.

Lemma handleGetTranslatedInstructions_base_language_witness :
  @handleGetTranslatedInstructions overloaded (JStr "EngLISH") empty_world
  = (Returned (JStr BASE_INSTRUCTIONS), empty_world).
Proof.
  apply (@handleGetTranslatedInstructions_base_language overloaded "EngLISH" empty_world).
  reflexivity.
Defined.

Lemma translateInstructions_call_text `{Env} (languageName : string) (w : World)
  (response : GenerateContentResponse) :
  settled (provider (ai_calls w) (instructions_request languageName)) = inr response ->
  translateInstructions_call languageName w
  = (Returned (from_option JStr JUndefined (text response)),
     set_clock (clock w + elapsed (provider (ai_calls w) (instructions_request languageName)))
       (count_call w)).
Proof.
  intros Hreply. unfold translateInstructions_call, bind, generateContent.
  now rewrite Hreply.
Qed.

(** X14. For another language, on a cache miss, [handleGetTranslatedInstructions]
    returns the text of the response as it is, [undefined] when there is
    none, after one provider call, and stores it under the key of the
    language.  A non-empty text is then served from the cache for one TTL;
    a missing or empty text is stored too but never served: the next call
    goes to the provider again. *)
Theorem handleGetTranslatedInstructions_stores_text `{Env} (languageName : string)
  (w : World) (response : GenerateContentResponse) :
  String.eqb (toLowerCase languageName) "english" = false ->
  cache_miss (instructions_cacheKey languageName) w ->
  settled (provider (ai_calls w) (instructions_request languageName)) = inr response ->
  let v := from_option JStr JUndefined (text response) in
  exists w',
    handleGetTranslatedInstructions (JStr languageName) w = (Returned v, w') /\
    ai_calls w' = S (ai_calls w) /\
    cache w' !! instructions_cacheKey languageName
    = Some {| timestamp := clock w'; data := v |} /\
    (truthy v = true ->
     forall t, t - clock w' < CACHE_TTL_MS ->
       handleGetTranslatedInstructions (JStr languageName) (set_clock t w')
       = (Returned v, set_clock t w')) /\
    (truthy v = false ->
     forall t, cache_miss (instructions_cacheKey languageName) (set_clock t w')).
Proof.
  intros Hother Hmiss Hreply v.
  pose proof (through_cache_miss_returned (instructions_cacheKey languageName)
                (translateInstructions_call languageName) w _ _
                (oblivious_translateInstructions_call languageName) Hmiss
                (translateInstructions_call_text languageName w response Hreply)) as Hrun.
  eexists. split.
  - unfold handleGetTranslatedInstructions. run_step. rewrite Hother. exact Hrun.
  - split; [reflexivity|]. split; [simpl; apply lookup_insert_eq|]. split.
    + intros Htruthy t Hfresh.
      apply (handleGetTranslatedInstructions_hit languageName
               {| timestamp := clock w + elapsed (provider (ai_calls w)
                                                    (instructions_request languageName));
                  data := v |});
        [exact Hother | | exact Htruthy].
      split; [simpl; apply lookup_insert_eq | exact Hfresh].
    + intros Hfalsy t entry [Hlookup _]. simpl in Hlookup.
      rewrite lookup_insert_eq in Hlookup. now injection Hlookup as <-.
Qed.

Lemma handleGetTranslatedInstructions_stores_text_witness :
  exists w',
    @handleGetTranslatedInstructions silent (JStr "French") empty_world
    = (Returned JUndefined, w') /\
    ai_calls w' = S (ai_calls empty_world) /\
    cache w' !! instructions_cacheKey "French"
    = Some {| timestamp := clock w'; data := JUndefined |} /\
    (truthy JUndefined = true ->
     forall t, t - clock w' < CACHE_TTL_MS ->
       @handleGetTranslatedInstructions silent (JStr "French") (set_clock t w')
       = (Returned JUndefined, set_clock t w')) /\
    (truthy JUndefined = false ->
     forall t, cache_miss (instructions_cacheKey "French") (set_clock t w')).
Proof.
  apply (@handleGetTranslatedInstructions_stores_text silent "French" empty_world
           {| text := None; candidates := None |}).
  - reflexivity.
  - intros entry [Hlookup _]. vm_compute in Hlookup. discriminate.
  - reflexivity.
Defined.

(** ** The entry point, continued *)

Lemma js_get_own (v : JValue) (name : string) :
  nullish v = false -> js_get v name = ret (own v name).
Proof. destruct v; first [discriminate | reflexivity]. Qed.

Lemma js_get_nullish (v : JValue) (name : string) (w : World) :
  nullish v = true -> exists e, js_get v name w = (Thrown e, w).
Proof. destruct v; try discriminate; intros _; eexists; reflexivity. Qed.

Lemma errorMessage_nonempty (e : JsError) : errorMessage e <> "".
Proof.
  unfold errorMessage. destruct (message e) as [m|]; [|discriminate].
  destruct (String.eqb_spec m ""); [discriminate | assumption].
Qed.

Ltac step_in H :=
  match type of H with
  | context [match ?x with (_, _) => _ end] =>
      destruct x as [[?|?] ?] eqn:?; cbn beta iota in H; try discriminate H
  end.

Lemma dispatch_status `{Env} (action payload : JValue) (w w' : World)
  (response : Response) :
  dispatch action payload w = (Returned response, w') ->
  res_status response = 200 \/ res_status response = 400.
Proof.
  unfold dispatch. intros Hrun.
  repeat match type of Hrun with
         | context [if ?b then _ else _] => destruct b
         end;
    unfold bind, ret in Hrun; repeat step_in Hrun;
    injection Hrun as <- _; simpl; tauto.
Qed.

(** X15. The main handler does not throw: on every request during which
    each provider call that is awaited settles, by resolving or by
    rejecting (a call of the provider here always does), it ends with an
    answer, whatever the request, the provider and the parser do.  The
    status of the answer is 200, 400, 405 or 500, it is 405 only for a
    method other than POST, and an answer with status 500 always carries a
    non-empty error message. *)
Theorem default_handler_always_answers `{Env} (req : Request) (w : World) :
  exists response w',
    default_handler req w = (Returned response, w') /\
    (res_status response = 200 \/ res_status response = 400
     \/ res_status response = 405 \/ res_status response = 500) /\
    (res_status response = 405 -> req_method req <> "POST") /\
    (res_status response = 500 ->
     exists m, res_body response = JsonBody (JObj [("error", JStr m)]) /\ m <> "").
Proof.
  unfold default_handler.
  destruct (String.eqb_spec (req_method req) "POST") as [Hpost|Hother]; simpl.
  - unfold try_catch.
    match goal with
    | |- context [match ?x with (_, _) => _ end] =>
        destruct x as [[response|e] w1] eqn:Hrun
    end.
    + assert (Hstatus : res_status response = 200 \/ res_status response = 400).
      { unfold bind in Hrun.
        destruct (parse (req_body req) w) as [[envelope|?] w2]; [|discriminate].
        destruct (js_get envelope "action" w2) as [[action|?] w3]; [|discriminate].
        destruct (js_get envelope "payload" w3) as [[payload|?] w4]; [|discriminate].
        exact (dispatch_status action payload w4 w1 response Hrun). }
      exists response, w1. split; [reflexivity|].
      split; [tauto|]. split; intros Hcode; destruct Hstatus; congruence.
    + eexists _, _. split; [reflexivity|]. simpl.
      split; [tauto|]. split; [discriminate|].
      intros _. exists (errorMessage e). split; [reflexivity | apply errorMessage_nonempty].
  - eexists _, _. split; [reflexivity|]. simpl.
    split; [tauto|]. split; [now intros _ | discriminate].
Qed.

(** X16. A POST request whose body parses to a value other than [null] and
    whose [action] is none of the four names is answered with status 400
    and the error "Invalid action"; the world is left as it was, so no
    handler ran, the provider was not called and nothing was logged. *)
Theorem default_handler_invalid_action `{Env} (req : Request) (w : World)
  (envelope : JValue) :
  req_method req = "POST" ->
  JSON_parse (req_body req) = inr envelope ->
  nullish envelope = false ->
  recognised (own envelope "action") = false ->
  default_handler req w
  = (Returned {| res_body := JsonBody (JObj [("error", JStr "Invalid action")]);
                 res_status := 400;
                 res_headers := json_headers |}, w).
Proof.
  intros Hpost Hparse Hvalue Haction. unfold default_handler.
  rewrite Hpost. simpl. unfold try_catch, bind at 1, parse. rewrite Hparse.
  unfold ret at 1. rewrite !(js_get_own envelope) by exact Hvalue.
  unfold bind, ret. simpl.
  unfold recognised in Haction.
  repeat (apply orb_false_iff in Haction as [Haction ?]).
  unfold dispatch.
  now repeat match goal with
             | Hno : is_action _ _ = false |- _ => rewrite Hno; clear Hno
             end.
Qed.

Lemma default_handler_invalid_action_witness :
  @default_handler (receiving overloaded (envelope_json "deleteEverything" [])
                      (envelope_of "deleteEverything" []))
    {| req_method := "POST"; req_body := envelope_json "deleteEverything" [] |}
    empty_world
  = (Returned {| res_body := JsonBody (JObj [("error", JStr "Invalid action")]);
                 res_status := 400;
                 res_headers := json_headers |}, empty_world).
Proof.
  apply (@default_handler_invalid_action
           (receiving overloaded (envelope_json "deleteEverything" [])
              (envelope_of "deleteEverything" []))
           {| req_method := "POST"; req_body := envelope_json "deleteEverything" [] |}
           empty_world (envelope_of "deleteEverything" []));
    reflexivity.
Defined.

Lemma own_string_not_nullish (v : JValue) (name s : string) :
  own v name = JStr s -> nullish v = false.
Proof. destruct v; first [discriminate | reflexivity]. Qed.

Lemma default_handler_post `{Env} (req : Request) (w : World) (envelope : JValue) :
  req_method req = "POST" ->
  JSON_parse (req_body req) = inr envelope ->
  nullish envelope = false ->
  default_handler req w
  = try_catch (dispatch (own envelope "action") (own envelope "payload"))
      (fun error =>
         console_log (error_api error);;
         ret {| res_body := JsonBody (JObj [("error", JStr (errorMessage error))]);
                res_status := 500;
                res_headers := json_headers |}) w.
Proof.
  intros Hpost Hparse Hvalue. unfold default_handler. rewrite Hpost. simpl.
  unfold try_catch, bind at 1, parse. rewrite Hparse. unfold ret at 1.
  rewrite !(js_get_own envelope) by exact Hvalue. reflexivity.
Qed.

Lemma dispatch_generateWords `{Env} (payload : JValue) :
  nullish payload = false ->
  dispatch (JStr "generateWords") payload
  = (let* result := handleGenerateWords (own payload "topic") (own payload "language") in
     ret (ok_response result)).
Proof.
  intros Hvalue. unfold dispatch. simpl.
  rewrite !(js_get_own payload) by exact Hvalue. reflexivity.
Qed.

Lemma dispatch_generateSpeech `{Env} (payload : JValue) :
  nullish payload = false ->
  dispatch (JStr "generateSpeech") payload
  = (let* result := handleGenerateSpeech (own payload "text") (own payload "voice") in
     ret (ok_response result)).
Proof.
  intros Hvalue. unfold dispatch. simpl.
  rewrite !(js_get_own payload) by exact Hvalue. reflexivity.
Qed.

Lemma dispatch_assessPronunciation `{Env} (payload : JValue) :
  nullish payload = false ->
  dispatch (JStr "assessPronunciation") payload
  = (let* result :=
       handleAssessPronunciation (own payload "word") (own payload "language")
         (own payload "userAudioBase64") (own payload "mimeType") in
     ret (ok_response result)).
Proof.
  intros Hvalue. unfold dispatch. simpl.
  rewrite !(js_get_own payload) by exact Hvalue. reflexivity.
Qed.

Lemma through_cache_miss_thrown `{Env} (key : string) (apiCall : M JValue)
  (w w' : World) (e : JsError) :
  cache_oblivious apiCall ->
  cache_miss key w ->
  withRetry apiCall 3 1000 w = (Thrown e, w') ->
  exists c, c ⊆ cache w /\ through_cache key apiCall w = (Thrown e, set_cache c w').
Proof.
  intros Hobl Hmiss Hretry. unfold through_cache, bind at 1.
  destruct (getCache_shape key w) as (v & c & Hget & _ & Hsub & _).
  destruct (getCache_miss key w Hmiss) as (v' & w1 & Hget' & Hfalsy & _).
  rewrite Hget in Hget'. injection Hget' as <- _.
  exists c. split; [exact Hsub|].
  rewrite Hget, Hfalsy. unfold bind at 1.
  now rewrite (oblivious_withRetry apiCall 3 1000 Hobl c w), Hretry.
Qed.

Lemma generateWords_call_overloaded `{Env} (topic language : string) :
  (forall n, fails_retryably (words_request topic language) n) ->
  always_retryable (generateWords_call topic language).
Proof.
  intros Hfail w. destruct (Hfail (ai_calls w)) as (e & Hcall & Hretryable).
  exists e. eexists. unfold generateWords_call, bind, generateContent.
  rewrite Hcall. split; [reflexivity|]. split; [exact Hretryable | reflexivity].
Qed.

(** X17. A POST request for [generateWords] with a topic and a language, on
    a cache miss and with a provider that rejects every call with a
    retryable failure, is answered with status 500 and the busy message,
    after exactly three provider calls (the default bound) and with nothing
    stored in the cache. *)
Theorem default_handler_provider_overloaded `{Env} (req : Request) (w : World)
  (envelope : JValue) (topic language : string) :
  req_method req = "POST" ->
  JSON_parse (req_body req) = inr envelope ->
  own envelope "action" = JStr "generateWords" ->
  own (own envelope "payload") "topic" = JStr topic ->
  own (own envelope "payload") "language" = JStr language ->
  cache_miss (words_cacheKey topic language) w ->
  (forall n, fails_retryably (words_request topic language) n) ->
  exists w',
    default_handler req w
    = (Returned
         {| res_body :=
              JsonBody (JObj [("error",
                               JStr "The AI service is currently busy. Please try again in a few moments.")]);
            res_status := 500;
            res_headers := json_headers |}, w') /\
    ai_calls w' = (ai_calls w + 3)%nat /\
    cache w' ⊆ cache w.
Proof.
  intros Hpost Hparse Haction Htopic Hlanguage Hmiss Hfail.
  rewrite (default_handler_post req w envelope Hpost Hparse
             (own_string_not_nullish _ _ _ Haction)).
  rewrite Haction, (dispatch_generateWords _ (own_string_not_nullish _ _ _ Htopic)).
  rewrite Htopic, Hlanguage.
  destruct (withRetry_loop_exhausts (generateWords_call topic language)
              (generateWords_call_overloaded topic language Hfail)
              (Z.to_nat (3 - 0)) 3 0 1000 w)
    as (e & wa & wb & w' & Hrun & _ & _ & _ & Hcalls); [lia | reflexivity |].
  destruct (through_cache_miss_thrown (words_cacheKey topic language)
              (generateWords_call topic language) w w' busy_error
              (oblivious_generateWords_call topic language) Hmiss Hrun)
    as (c & Hsub & Hthrough).
  change (handleGenerateWords (JStr topic) (JStr language))
    with (through_cache (words_cacheKey topic language) (generateWords_call topic language)).
  unfold try_catch, bind at 1. rewrite Hthrough.
  eexists. split; [reflexivity|]. simpl. split; [lia | exact Hsub].
Qed.

Lemma default_handler_provider_overloaded_witness :
  let body := envelope_json "generateWords" [("topic", "Food"); ("language", "French")] in
  let envelope := envelope_of "generateWords" [("topic", "Food"); ("language", "French")] in
  exists w',
    @default_handler (receiving overloaded body envelope)
      {| req_method := "POST"; req_body := body |} empty_world
    = (Returned
         {| res_body :=
              JsonBody (JObj [("error",
                               JStr "The AI service is currently busy. Please try again in a few moments.")]);
            res_status := 500;
            res_headers := json_headers |}, w') /\
    ai_calls w' = (ai_calls empty_world + 3)%nat /\
    cache w' ⊆ cache empty_world.
Proof.
  apply (@default_handler_provider_overloaded
           (receiving overloaded
              (envelope_json "generateWords" [("topic", "Food"); ("language", "French")])
              (envelope_of "generateWords" [("topic", "Food"); ("language", "French")]))
           {| req_method := "POST";
              req_body := envelope_json "generateWords"
                            [("topic", "Food"); ("language", "French")] |}
           empty_world
           (envelope_of "generateWords" [("topic", "Food"); ("language", "French")])
           "Food" "French"); try reflexivity.
  - intros entry [Hlookup _]. vm_compute in Hlookup. discriminate.
  - intros n. eexists. split; reflexivity.
Defined.

(** X18. A POST request for [generateSpeech] whose text and voice have an
    entry in the cache that can be served is answered with status 200 and
    that entry as the JSON body; the world is left as it was, so the
    provider was not called. *)
Theorem default_handler_cache_hit `{Env} (req : Request) (w : World)
  (envelope : JValue) (text voice : string) (entry : CacheEntry) :
  req_method req = "POST" ->
  JSON_parse (req_body req) = inr envelope ->
  own envelope "action" = JStr "generateSpeech" ->
  own (own envelope "payload") "text" = JStr text ->
  own (own envelope "payload") "voice" = JStr voice ->
  fresh_entry (speech_cacheKey text voice) entry w ->
  truthy (data entry) = true ->
  default_handler req w
  = (Returned {| res_body := JsonBody (data entry);
                 res_status := 200;
                 res_headers := json_headers |}, w).
Proof.
  intros Hpost Hparse Haction Htext Hvoice Hfresh Htruthy.
  rewrite (default_handler_post req w envelope Hpost Hparse
             (own_string_not_nullish _ _ _ Haction)).
  rewrite Haction, (dispatch_generateSpeech _ (own_string_not_nullish _ _ _ Htext)).
  rewrite Htext, Hvoice. unfold try_catch, bind.
  now rewrite (handleGenerateSpeech_hit text voice entry w Hfresh Htruthy).
Qed.

Lemma default_handler_cache_hit_witness :
  let body := envelope_json "generateSpeech" [("text", "Pain"); ("voice", "Kore")] in
  let envelope := envelope_of "generateSpeech" [("text", "Pain"); ("voice", "Kore")] in
  let w := set_clock 1000 (snd (setCache "speech:pain:kore" (JStr "UklGRg") empty_world)) in
  @default_handler (receiving overloaded body envelope)
    {| req_method := "POST"; req_body := body |} w
  = (Returned {| res_body := JsonBody (JStr "UklGRg");
                 res_status := 200;
                 res_headers := json_headers |}, w).
Proof.
  apply (@default_handler_cache_hit
           (receiving overloaded
              (envelope_json "generateSpeech" [("text", "Pain"); ("voice", "Kore")])
              (envelope_of "generateSpeech" [("text", "Pain"); ("voice", "Kore")]))
           {| req_method := "POST";
              req_body := envelope_json "generateSpeech" [("text", "Pain"); ("voice", "Kore")] |}
           (set_clock 1000 (snd (setCache "speech:pain:kore" (JStr "UklGRg") empty_world)))
           (envelope_of "generateSpeech" [("text", "Pain"); ("voice", "Kore")])
           "Pain" "Kore" {| timestamp := 0; data := JStr "UklGRg" |}); try reflexivity.
  split; vm_compute; reflexivity.
Defined.

(** X19. A POST request whose body [JSON.parse] rejects is answered with
    status 500 (not 400) and the parser's message, or the default message
    when it has none; the failure is logged, and nothing else happens: no
    handler runs and the provider is not called. *)
Theorem default_handler_unparsable_body `{Env} (req : Request) (w : World) (e : JsError) :
  req_method req = "POST" ->
  JSON_parse (req_body req) = inl e ->
  default_handler req w
  = (Returned {| res_body := JsonBody (JObj [("error", JStr (errorMessage e))]);
                 res_status := 500;
                 res_headers := json_headers |},
     log (error_api e) w).
Proof.
  intros Hpost Hparse. unfold default_handler. rewrite Hpost. simpl.
  unfold try_catch, bind at 1, parse. now rewrite Hparse.
Qed.

Lemma default_handler_unparsable_body_witness :
  @default_handler overloaded {| req_method := "POST"; req_body := "{" |} empty_world
  = (Returned {| res_body := JsonBody (JObj [("error", JStr "Unexpected token in JSON")]);
                 res_status := 500;
                 res_headers := json_headers |},
     log (error_api (Error "Unexpected token in JSON")) empty_world).
Proof.
  apply (@default_handler_unparsable_body overloaded
           {| req_method := "POST"; req_body := "{" |} empty_world
           (Error "Unexpected token in JSON")); reflexivity.
Defined.

Lemma this_string_not_string (expr : string) (v : JValue) (w : World) :
  (forall s, v <> JStr s) -> exists e, this_string expr v w = (Thrown e, w).
Proof.
  intros Hnot. destruct v; try (eexists; reflexivity).
  now contradiction (Hnot s).
Qed.

(** X20. A POST request for [generateWords] whose payload gives no string as
    topic or as language (the payload or the field is missing, or holds
    something else) is answered with status 500 before anything is done for
    it: the provider is not called and the cache is left as it was. *)
Theorem default_handler_missing_field `{Env} (req : Request) (w : World)
  (envelope : JValue) :
  req_method req = "POST" ->
  JSON_parse (req_body req) = inr envelope ->
  own envelope "action" = JStr "generateWords" ->
  (forall s, own (own envelope "payload") "topic" <> JStr s)
  \/ (forall s, own (own envelope "payload") "language" <> JStr s) ->
  exists response w',
    default_handler req w = (Returned response, w') /\
    res_status response = 500 /\
    ai_calls w' = ai_calls w /\
    cache w' = cache w.
Proof.
  intros Hpost Hparse Haction Hfield.
  rewrite (default_handler_post req w envelope Hpost Hparse
             (own_string_not_nullish _ _ _ Haction)).
  rewrite Haction. unfold try_catch.
  destruct (nullish (own envelope "payload")) eqn:Hpayload.
  - destruct (js_get_nullish _ "topic" w Hpayload) as (e & Hget).
    unfold dispatch. simpl. unfold bind at 1. rewrite Hget.
    eexists _, _. split; [reflexivity|]. now simpl.
  - rewrite (dispatch_generateWords _ Hpayload).
    unfold bind at 1, handleGenerateWords, bind at 1.
    destruct (this_string "topic" (own (own envelope "payload") "topic") w)
      as [[topic|e] w1] eqn:Htopic.
    + destruct Hfield as [Hfield | Hfield].
      * destruct (this_string_not_string "topic" _ w Hfield) as (e & Hthrown).
        rewrite Hthrown in Htopic. discriminate.
      * destruct (this_string_not_string "language" _ w1 Hfield) as (e & Hthrown).
        assert (w1 = w) as ->.
        { destruct (own (own envelope "payload") "topic"); simpl in Htopic;
            now injection Htopic. }
        unfold bind at 1. rewrite Hthrown.
        eexists _, _. split; [reflexivity|]. now simpl.
    + assert (w1 = w) as ->.
      { destruct (own (own envelope "payload") "topic"); simpl in Htopic;
          now injection Htopic. }
      eexists _, _. split; [reflexivity|]. now simpl.
Qed.

Lemma default_handler_missing_field_witness :
  let body := envelope_json "generateWords" [("language", "French")] in
  let envelope := envelope_of "generateWords" [("language", "French")] in
  exists response w',
    @default_handler (receiving three_words body envelope)
      {| req_method := "POST"; req_body := body |} empty_world
    = (Returned response, w') /\
    res_status response = 500 /\
    ai_calls w' = ai_calls empty_world /\
    cache w' = cache empty_world.
Proof.
  apply (@default_handler_missing_field
           (receiving three_words (envelope_json "generateWords" [("language", "French")])
              (envelope_of "generateWords" [("language", "French")]))
           {| req_method := "POST";
              req_body := envelope_json "generateWords" [("language", "French")] |}
           empty_world (envelope_of "generateWords" [("language", "French")]));
    try reflexivity.
  left. discriminate.
Defined.

Lemma assessPronunciation_call_returns `{Env}
  (word language userAudioBase64 mimeType : JValue) (word' language' : string)
  (w : World) (response : GenerateContentResponse) (t : string) (v : JValue) :
  js_String word = Some word' ->
  js_String language = Some language' ->
  settled (provider (ai_calls w)
             (assessment_request (assessment_prompt word' language')
                userAudioBase64 mimeType)) = inr response ->
  text response = Some t ->
  JSON_parse (trim t) = inr v ->
  assessPronunciation_call word language userAudioBase64 mimeType w
  = (Returned v,
     set_clock (clock w + elapsed (provider (ai_calls w)
                                     (assessment_request (assessment_prompt word' language')
                                        userAudioBase64 mimeType)))
       (count_call w)).
Proof.
  intros Hword Hlanguage Hreply Htext Hparse.
  unfold assessPronunciation_call, substitution. rewrite Hword, Hlanguage.
  unfold bind, ret, generateContent. rewrite Hreply.
  unfold text_trim. rewrite Htext. unfold ret, parse. now rewrite Hparse.
Qed.

(** X21. A POST request for [assessPronunciation] is passed on to the
    provider whatever its payload holds: the word and the language go into
    the prompt as the template literal prints them, a missing one as
    "undefined", the audio and its type as they are; when the response
    parses, the answer has status 200 and the parsed value as its body,
    after one provider call. *)
Theorem default_handler_assess_unchecked `{Env} (req : Request) (w : World)
  (envelope : JValue) (word language : string) (response : GenerateContentResponse)
  (t : string) (v : JValue) :
  let payload := own envelope "payload" in
  let request :=
    assessment_request (assessment_prompt word language)
      (own payload "userAudioBase64") (own payload "mimeType") in
  req_method req = "POST" ->
  JSON_parse (req_body req) = inr envelope ->
  own envelope "action" = JStr "assessPronunciation" ->
  nullish payload = false ->
  js_String (own payload "word") = Some word ->
  js_String (own payload "language") = Some language ->
  settled (provider (ai_calls w) request) = inr response ->
  text response = Some t ->
  JSON_parse (trim t) = inr v ->
  default_handler req w
  = (Returned {| res_body := JsonBody v; res_status := 200; res_headers := json_headers |},
     set_clock (clock w + elapsed (provider (ai_calls w) request)) (count_call w)).
Proof.
  intros payload request Hpost Hbody Haction Hpayload Hword Hlanguage Hreply Htext Hparse.
  rewrite (default_handler_post req w envelope Hpost Hbody
             (own_string_not_nullish _ _ _ Haction)).
  rewrite Haction. fold payload. rewrite (dispatch_assessPronunciation _ Hpayload).
  unfold try_catch, bind at 1, handleAssessPronunciation, withRetry.
  rewrite (withRetry_loop_success _ 3 0 1000 w _ v ltac:(lia)
             (assessPronunciation_call_returns _ _ _ _ word language w response t v
                Hword Hlanguage Hreply Htext Hparse)).
  reflexivity.
Qed.

Lemma default_handler_assess_unchecked_witness :
  let body := envelope_json "assessPronunciation" [] in
  let envelope := envelope_of "assessPronunciation" [] in
  let env := receiving empty_object body envelope in
  @default_handler env {| req_method := "POST"; req_body := body |} empty_world
  = (Returned {| res_body := JsonBody (JObj []); res_status := 200;
                 res_headers := json_headers |},
     set_clock (clock empty_world
                + elapsed (@provider env (ai_calls empty_world)
                             (assessment_request (assessment_prompt "undefined" "undefined")
                                JUndefined JUndefined)))
       (count_call empty_world)).
Proof.
  apply (@default_handler_assess_unchecked
           (receiving empty_object (envelope_json "assessPronunciation" [])
              (envelope_of "assessPronunciation" []))
           {| req_method := "POST"; req_body := envelope_json "assessPronunciation" [] |}
           empty_world (envelope_of "assessPronunciation" [])
           "undefined" "undefined" {| text := Some "{}"; candidates := None |}
           "{}" (JObj [])); reflexivity.
Defined.

(** ** The client-side service *)

Lemma length_append (s t : string) :
  String.length (s +:+ t) = (String.length s + String.length t)%nat.
Proof. induction s as [|c s IH]; simpl; [reflexivity | now rewrite IH]. Qed.

Lemma substring_skip (p s : string) (n : nat) :
  substring (String.length p) n (p +:+ s) = substring 0 n s.
Proof. induction p as [|c p IH]; simpl; [reflexivity | exact IH]. Qed.

Lemma substring_head (s t : string) : substring 0 (String.length s) (s +:+ t) = s.
Proof.
  induction s as [|c s IH]; simpl; [now destruct t | now rewrite IH].
Qed.

Lemma prefix_append (p q s : string) :
  String.prefix (p +:+ q) (p +:+ s) = String.prefix q s.
Proof.
  induction p as [|c p IH]; simpl; [reflexivity|].
  destruct (ascii_dec c c); [exact IH | contradiction].
Qed.

Lemma js_substring_middle (p inner tail : string) :
  js_substring (p +:+ inner +:+ tail) (Z.of_nat (String.length p))
    (Z.of_nat (String.length (p +:+ inner +:+ tail)) - Z.of_nat (String.length tail))
  = inner.
Proof.
  unfold js_substring. rewrite !length_append.
  replace (Z.to_nat _) with (String.length p) by lia.
  replace (Z.to_nat _) with (String.length inner) by lia.
  now rewrite substring_skip, substring_head.
Qed.

Lemma prefix_self_append (p s : string) : String.prefix p (p +:+ s) = true.
Proof.
  induction p as [|c p IH]; simpl; [now destruct s|].
  destruct (ascii_dec c c); [exact IH | contradiction].
Qed.

(** X22. Unfencing a text that opens with a json fence and has any three
    characters after its content, a closing fence or not, gives the content
    trimmed: the last three characters are dropped without being looked
    at. *)
Theorem unfence_json_fence (inner tail : string) :
  String.length tail = 3%nat ->
  GeminiService.unfence ("```json" +:+ inner +:+ tail) = trim inner.
Proof.
  intros Htail. unfold GeminiService.unfence.
  rewrite (prefix_self_append "```json"). f_equal.
  pose proof (js_substring_middle "```json" inner tail) as Hmiddle.
  rewrite Htail in Hmiddle. exact Hmiddle.
Qed.

Lemma unfence_json_fence_witness :
  GeminiService.unfence ("```json" +:+ (nl +:+ words_json ["pain"; "vin"] +:+ nl) +:+ "```")
  = trim (nl +:+ words_json ["pain"; "vin"] +:+ nl).
Proof.
  apply (unfence_json_fence (nl +:+ words_json ["pain"; "vin"] +:+ nl) "```").
  reflexivity.
Defined.

(** X23. Unfencing a text that opens with a fence not followed by "json"
    and has any three characters after its content gives the content
    trimmed, another language tag included. *)
Theorem unfence_plain_fence (inner tail : string) :
  String.prefix "json" (inner +:+ tail) = false ->
  String.length tail = 3%nat ->
  GeminiService.unfence ("```" +:+ inner +:+ tail) = trim inner.
Proof.
  intros Htag Htail. unfold GeminiService.unfence.
  change "```json" with ("```" +:+ "json").
  rewrite (prefix_append "```" "json" (inner +:+ tail)), Htag.
  rewrite (prefix_self_append "```"). f_equal.
  pose proof (js_substring_middle "```" inner tail) as Hmiddle.
  rewrite Htail in Hmiddle. exact Hmiddle.
Qed.

Lemma unfence_plain_fence_witness :
  GeminiService.unfence ("```" +:+ (nl +:+ words_json ["pain"; "vin"] +:+ nl) +:+ "```")
  = trim (nl +:+ words_json ["pain"; "vin"] +:+ nl).
Proof.
  apply (unfence_plain_fence (nl +:+ words_json ["pain"; "vin"] +:+ nl) "```");
    reflexivity.
Defined.

(** X24. A text that opens with a json fence and has fewer than three
    characters after it is not emptied: the end index falls before the
    start index, the two are exchanged, and the result is cut out of the
    fence itself, the last letters of its tag. *)
Theorem unfence_short_text (rest : string) :
  (String.length rest < 3)%nat ->
  GeminiService.unfence ("```json" +:+ rest)
  = substring (4 + String.length rest) (3 - String.length rest) "```json".
Proof.
  intros Hshort.
  destruct rest as [|a [|b [|c rest]]]; simpl in Hshort; try lia; reflexivity.
Qed.

Lemma unfence_short_text_witness :
  GeminiService.unfence ("```json" +:+ "") = "son".
Proof.
  apply (unfence_short_text ""). simpl. lia.
Defined.

Lemma prefix_weaken (p q : string) :
  forall s, String.prefix (p +:+ q) s = true -> String.prefix p s = true.
Proof.
  induction p as [|c p IH]; intros s Hprefix; [now destruct s|].
  destruct s as [|d s]; simpl in *; [discriminate|].
  destruct (ascii_dec c d); [now apply IH | discriminate].
Qed.

Lemma unfence_unfenced (jsonText : string) :
  String.prefix "```" jsonText = false -> GeminiService.unfence jsonText = jsonText.
Proof.
  intros Hplain. unfold GeminiService.unfence. rewrite Hplain.
  destruct (String.prefix "```json" jsonText) eqn:Hjson; [|reflexivity].
  apply (prefix_weaken "```" "json") in Hjson. congruence.
Qed.

(** X25. The gateway and the client-side service read the same response in
    the same way, up to the empty list: for a response without code fence
    that parses to an object whose [words] is an array, the service returns
    the first 10 entries, also when there are none, while the call of
    [handleGenerateWords] returns the same entries when there are some and
    throws "Invalid response format from API." when there are none. *)
Theorem generateWords_gateway_and_service `{Env} (topic language : string) (w : World)
  (response : GenerateContentResponse) (t : string)
  (fields : list (string * JValue)) (items : list JValue) :
  let w' :=
    set_clock (clock w + elapsed (provider (ai_calls w) (words_request topic language)))
      (count_call w) in
  settled (provider (ai_calls w) (words_request topic language)) = inr response ->
  text response = Some t ->
  String.prefix "```" (trim t) = false ->
  JSON_parse (trim t) = inr (JObj fields) ->
  assoc "words" fields = Some (JArr items) ->
  GeminiService.generateWords_result response w' = (Returned (JArr (firstn 10 items)), w') /\
  generateWords_call topic language w
  = (match items with
     | [] => Thrown (Error "Invalid response format from API.")
     | _ :: _ => Returned (JArr (firstn 10 items))
     end, w').
Proof.
  intros w' Hreply Htext Hplain Hparse Hwords. split.
  - unfold GeminiService.generateWords_result, bind, text_trim. rewrite Htext.
    unfold ret at 1. rewrite (unfence_unfenced _ Hplain).
    unfold parse. rewrite Hparse. unfold ret at 1, js_get. rewrite Hwords.
    reflexivity.
  - unfold generateWords_call, bind, generateContent.
    rewrite Hreply. unfold text_trim. rewrite Htext. unfold ret at 1.
    unfold parse. rewrite Hparse. unfold ret at 1, js_get. rewrite Hwords.
    now destruct items.
Qed.

Lemma generateWords_gateway_and_service_witness :
  let env := answering (words_json []) (words_value []) in
  let w' := set_clock 250 (count_call empty_world) in
  @GeminiService.generateWords_result env
    {| text := Some (words_json []); candidates := None |} w'
  = (Returned (JArr (firstn 10 [])), w') /\
  @generateWords_call env "Food" "French" empty_world
  = (Thrown (Error "Invalid response format from API."), w').
Proof.
  apply (@generateWords_gateway_and_service (answering (words_json []) (words_value []))
           "Food" "French" empty_world
           {| text := Some (words_json []); candidates := None |}
           (words_json []) [("words", JArr [])] []); reflexivity.
Defined.

(** ** Expiry and the handlers *)

Lemma stale_entry_miss (key : string) (entry : CacheEntry) (w : World) :
  cache w !! key = Some entry ->
  CACHE_TTL_MS <= clock w - timestamp entry ->
  cache_miss key w.
Proof.
  intros Hlookup Hstale entry' [Hlookup' Hfresh].
  rewrite Hlookup in Hlookup'. injection Hlookup' as <-. lia.
Qed.

(** X26. An entry that has expired is fetched again and replaced: when
    [handleGenerateSpeech] has stored the audio of one provider call and is
    called again for the same text and voice one TTL or more after that
    call ended, it calls the provider once more, returns the audio of the
    new call and stores it in place of the old one, stamped with the time
    at which the new call ended. *)
Theorem handleGenerateSpeech_refetches `{Env} (text voice : string) (w : World)
  (response1 response2 : GenerateContentResponse) (audio1 audio2 : string) (t : Z) :
  let request := speech_request text voice in
  let stored := clock w + elapsed (provider (ai_calls w) request) in
  cache_miss (speech_cacheKey text voice) w ->
  settled (provider (ai_calls w) request) = inr response1 ->
  first_inlineData response1 = Some audio1 ->
  audio1 <> "" ->
  settled (provider (S (ai_calls w)) request) = inr response2 ->
  first_inlineData response2 = Some audio2 ->
  audio2 <> "" ->
  CACHE_TTL_MS <= t - stored ->
  exists w1 w2,
    handleGenerateSpeech (JStr text) (JStr voice) w = (Returned (JStr audio1), w1) /\
    handleGenerateSpeech (JStr text) (JStr voice) (set_clock t w1)
    = (Returned (JStr audio2), w2) /\
    ai_calls w2 = S (S (ai_calls w)) /\
    clock w2 = t + elapsed (provider (S (ai_calls w)) request) /\
    cache w2 !! speech_cacheKey text voice
    = Some {| timestamp := clock w2; data := JStr audio2 |}.
Proof.
  intros request stored Hmiss Hreply1 Haudio1 Hnonempty1 Hreply2 Haudio2 Hnonempty2 Hstale.
  pose proof (through_cache_miss_returned (speech_cacheKey text voice)
                (generateSpeech_call text voice) w _ _
                (oblivious_generateSpeech_call text voice) Hmiss
                (generateSpeech_call_audio text voice w response1 audio1
                   Hreply1 Haudio1 Hnonempty1)) as Hfirst.
  eexists. eexists. split; [exact Hfirst|].
  match goal with
  | |- handleGenerateSpeech _ _ ?w1 = _ /\ _ =>
      assert (Hmiss1 : cache_miss (speech_cacheKey text voice) w1)
        by (eapply stale_entry_miss; [simpl; apply lookup_insert_eq | exact Hstale]);
      pose proof (through_cache_miss_returned (speech_cacheKey text voice)
                    (generateSpeech_call text voice) w1 _ _
                    (oblivious_generateSpeech_call text voice) Hmiss1
                    (generateSpeech_call_audio text voice w1 response2 audio2
                       Hreply2 Haudio2 Hnonempty2)) as Hsecond
  end.
  split; [exact Hsecond|].
  simpl. split; [reflexivity|]. split; [reflexivity|]. apply lookup_insert_eq.
Qed.

Lemma handleGenerateSpeech_refetches_witness :
  exists w1 w2,
    @handleGenerateSpeech (speaking "UklGRg") (JStr "Pain") (JStr "Kore") empty_world
    = (Returned (JStr "UklGRg"), w1) /\
    @handleGenerateSpeech (speaking "UklGRg") (JStr "Pain") (JStr "Kore")
      (set_clock 3600900 w1)
    = (Returned (JStr "UklGRg"), w2) /\
    ai_calls w2 = S (S (ai_calls empty_world)) /\
    clock w2 = 3600900 + elapsed (@provider (speaking "UklGRg") (S (ai_calls empty_world))
                                    (speech_request "Pain" "Kore")) /\
    cache w2 !! speech_cacheKey "Pain" "Kore"
    = Some {| timestamp := clock w2; data := JStr "UklGRg" |}.
Proof.
  apply (@handleGenerateSpeech_refetches (speaking "UklGRg") "Pain" "Kore" empty_world
           (audio_response "UklGRg") (audio_response "UklGRg") "UklGRg" "UklGRg" 3600900);
    try reflexivity; try discriminate.
  intros entry [Hlookup _]. vm_compute in Hlookup. discriminate.
Defined.
